(** * JobMatch Pro: the matching and scoring engine of [app.py]

    A shallow embedding of the helper functions of [app.py]
    ([normalize_skill], [calculate_match], [extract_text_from_file]) and of
    the ranking step of [analyze_cvs], with the properties the specification
    states about them; then the routes that read and write the tables
    ([index], [job_seeker_dashboard], [job_seeker_profile], [apply_job],
    [update_application_status]), with further properties of the code.

    Conventions of the embedding:
    - a Python [str] is a [string] whose characters are the code points
      0..255 (the Latin-1 block of Unicode); the character classes of the
      [re] module ([\w], [\s]) and [str.lower] are the Unicode ones
      restricted to that block;
    - a Python [float] is the rational number it denotes, and every
      arithmetic operation is the exact one followed by the rounding of
      IEEE 754 binary64 (to nearest, ties to even); no operation of the
      scorer leaves the range of the finite numbers;
    - calls into third-party libraries (scikit-learn, python-magic,
      pdfminer, python-docx) are variables of a section;
    - a raised exception is the right injection of a sum type. *)

From Stdlib Require Import Ascii String List Bool NArith ZArith QArith Qround Qpower Qabs
  Qreduction Lia Lqa
  Permutation Sorted.
From stdpp Require Import gmap strings.

Local Open Scope string_scope.

(** ** Characters *)

Module Char.

Definition code (c : ascii) : N := N_of_ascii c.

Definition between (lo hi : N) (c : ascii) : bool :=
  ((lo <=? code c) && (code c <=? hi))%N.

(** [Py_UNICODE_ISSPACE]: what [\s] and [str.strip()] take as whitespace. *)
Definition is_space (c : ascii) : bool :=
  between 9 13 c || between 28 32 c || (code c =? 133)%N || (code c =? 160)%N.

(** [str.isalnum] on one character: letters, decimal digits, and the
    Latin-1 ordinals, superscripts and fractions. *)
Definition is_alnum (c : ascii) : bool :=
  between 48 57 c || between 65 90 c || between 97 122 c
  || (code c =? 170)%N || between 178 179 c || (code c =? 181)%N
  || between 185 186 c || between 188 190 c
  || between 192 214 c || between 216 246 c || between 248 255 c.

(** [\w] of the [re] module on a [str] pattern. *)
Definition is_word (c : ascii) : bool := is_alnum c || (code c =? 95)%N.

Definition is_hyphen (c : ascii) : bool := (code c =? 45)%N.

(** [str.lower] on one character. *)
Definition lower (c : ascii) : ascii :=
  if between 65 90 c || between 192 214 c || between 216 222 c
  then ascii_of_N (code c + 32)
  else c.

End Char.

(** ** Strings: the [str] methods and [re.sub] patterns of the source *)

Module Str.

Fixpoint smap (f : ascii -> ascii) (s : string) : string :=
  match s with
  | EmptyString => EmptyString
  | String c t => String (f c) (smap f t)
  end.

Fixpoint sfilter (p : ascii -> bool) (s : string) : string :=
  match s with
  | EmptyString => EmptyString
  | String c t => if p c then String c (sfilter p t) else sfilter p t
  end.

Fixpoint sforall (p : ascii -> bool) (s : string) : bool :=
  match s with
  | EmptyString => true
  | String c t => p c && sforall p t
  end.

Definition is_empty (s : string) : bool :=
  match s with EmptyString => true | String _ _ => false end.

(** [s.lower()] *)
Definition lower (s : string) : string := smap Char.lower s.

(** [s.lstrip()] *)
Fixpoint lstrip (s : string) : string :=
  match s with
  | EmptyString => EmptyString
  | String c t => if Char.is_space c then lstrip t else s
  end.

(** [s.rstrip()] *)
Fixpoint rstrip (s : string) : string :=
  match s with
  | EmptyString => EmptyString
  | String c t =>
      let r := rstrip t in
      if Char.is_space c && is_empty r then EmptyString else String c r
  end.

(** [s.strip()] *)
Definition strip (s : string) : string := rstrip (lstrip s).

(** [re.sub(r'\s+', ' ', s)]: every maximal run of whitespace becomes one
    space; [in_run] tells that the previous character was whitespace. *)
Fixpoint collapse (in_run : bool) (s : string) : string :=
  match s with
  | EmptyString => EmptyString
  | String c t =>
      if Char.is_space c
      then if in_run then collapse true t else String " " (collapse true t)
      else String c (collapse false t)
  end.

Definition sub_space_runs (s : string) : string := collapse false s.

(** The class [[^\w\s-]] of [normalize_skill] matches what [keep_skill_char]
    rejects. *)
Definition keep_skill_char (c : ascii) : bool :=
  Char.is_word c || Char.is_space c || Char.is_hyphen c.

(** [re.sub(r'[^\w\s-]', '', s)] *)
Definition sub_skill_punct (s : string) : string := sfilter keep_skill_char s.

(** [re.sub(r'[^\w\s]', ' ', s)] *)
Definition sub_text_punct (s : string) : string :=
  smap (fun c => if Char.is_word c || Char.is_space c then c else " "%char) s.

(** [sep.join(l)] *)
Fixpoint join (sep : string) (l : list string) : string :=
  match l with
  | [] => ""
  | [x] => x
  | x :: rest => x ++ sep ++ join sep rest
  end.

(** [s.split(sep)] for a one-character separator: the pieces between the
    separators, one more than there are separators. *)
Fixpoint split_on (sep : ascii) (s : string) : list string :=
  match s with
  | EmptyString => [EmptyString]
  | String c t =>
      if Ascii.eqb c sep then EmptyString :: split_on sep t
      else match split_on sep t with
           | [] => [String c EmptyString]
           | piece :: rest => String c piece :: rest
           end
  end.

End Str.

(** ** [normalize_skill] *)

Definition normalize_skill (skill : string) : string :=
  let skill := Str.sub_skill_punct (Str.lower skill) in
  Str.strip (Str.sub_space_runs skill).

(** ** The whole-word search [re.search(rf'\b{re.escape(skill)}\b', text)] *)

Module Re.

Definition word_at (c : option ascii) : bool :=
  match c with Some c => Char.is_word c | None => false end.

(** [\b] between two neighbouring positions: exactly one side is a word
    character; outside the string counts as a non-word character. *)
Definition boundary (prev next : option ascii) : bool :=
  xorb (word_at prev) (word_at next).

Definition head (s : string) : option ascii :=
  match s with EmptyString => None | String c _ => Some c end.

(** The last character of [s], or [prev] when [s] is empty. *)
Fixpoint last_or (prev : option ascii) (s : string) : option ascii :=
  match s with
  | EmptyString => prev
  | String c t => last_or (Some c) t
  end.

(** What follows the literal [lit] at the front of [s]. [re.escape] makes
    every character of the skill match itself. *)
Fixpoint after_literal (lit s : string) : option string :=
  match lit, s with
  | EmptyString, _ => Some s
  | String a lit', String b s' => if Ascii.eqb a b then after_literal lit' s' else None
  | String _ _, EmptyString => None
  end.

(** A match of [\b lit \b] that starts here; [prev] is the character before
    this position. *)
Definition match_here (prev : option ascii) (lit s : string) : bool :=
  boundary prev (head s)
  && match after_literal lit s with
     | Some rest => boundary (last_or prev lit) (head rest)
     | None => false
     end.

(** [re.search]: the leftmost position where the pattern matches. *)
Fixpoint search_from (prev : option ascii) (lit s : string) : bool :=
  match_here prev lit s
  || match s with
     | EmptyString => false
     | String c t => search_from (Some c) lit t
     end.

Definition search_word (lit s : string) : bool := search_from None lit s.

End Re.

(** ** Numbers *)

Local Open Scope Q_scope.

(** Round half to even, to an integer. *)
Definition round_half_even (x : Q) : Z :=
  let f := Qfloor x in
  match Qcompare (x - inject_Z f) (1 # 2) with
  | Lt => f
  | Gt => (f + 1)%Z
  | Eq => if Z.even f then f else (f + 1)%Z
  end.

(** Binary64 arithmetic on the rationals. *)
Module Float.

Definition pow2 (e : Z) : Q := 2 ^ e.

(** The integer part of the binary logarithm of a positive rational. *)
Definition ilog2 (x : Q) : Z :=
  let d := (Z.log2 (Qnum x) - Z.log2 (Zpos (Qden x)))%Z in
  if Qle_bool (pow2 d) x then d else (d - 1)%Z.

(** The exponent of the last of the 53 bits of [x]; at least -1074, where
    the subnormal numbers end. *)
Definition exponent (x : Q) : Z := Z.max (ilog2 (Qabs x) - 52) (-1074).

(** Rounding to the nearest binary64 number, ties to even. *)
Definition fl (x : Q) : Q :=
  let x := Qred x in
  let e := exponent x in
  Qred (inject_Z (round_half_even (x / pow2 e)) * pow2 e).

(** [a + b], [a * b] and [a / b] on floats. *)
Definition add (a b : Q) : Q := fl (a + b).
Definition mul (a b : Q) : Q := fl (a * b).
Definition div (a b : Q) : Q := fl (a / b).

(** The literals [0.6] and [0.4]. *)
Definition lit_0_6 : Q := fl (6 # 10).
Definition lit_0_4 : Q := fl (4 # 10).

End Float.

(** [round(x, 2)] on a Python float: the decimal with two places nearest
    to the exact value of [x], ties to even, then the float nearest to that
    decimal. *)
Definition round2 (x : Q) : Q :=
  Float.fl (inject_Z (round_half_even (x * 100)) / 100).

(** [round(x, 2)] on a numpy [float64], which is what [cosine_similarity]
    gives: numpy multiplies by 100, rounds to an integer with [rint] and
    divides by 100, each in binary64. *)
Definition np_round2 (x : Q) : Q :=
  Float.div (inject_Z (round_half_even (Float.mul x 100))) 100.

(** [len(a) / len(b)], the true division of two integers. *)
Definition len_ratio {A B} (a : list A) (b : list B) : Q :=
  Float.div (inject_Z (Z.of_nat (List.length a))) (inject_Z (Z.of_nat (List.length b))).

(** ** [calculate_match] *)

(** The dictionary that [calculate_match] returns. *)
Record MatchResult := {
  total_score : Q;
  jd_match : Q;
  skills_match : Q;
  missing_skills : string;
  found_skills : string
}.

Definition is_nil {A} (l : list A) : bool :=
  match l with [] => true | _ => false end.

(** [re.sub(r'[^\w\s]', ' ', text.lower())] *)
Definition clean_text (text : string) : string :=
  Str.sub_text_punct (Str.lower text).

(** [[normalize_skill(skill.strip()) for skill in required_skills.split(',')
     if skill.strip()]] *)
Definition skills_list (required_skills : string) : list string :=
  List.map (fun skill => normalize_skill (Str.strip skill))
    (List.filter (fun skill => negb (Str.is_empty (Str.strip skill)))
       (Str.split_on "," required_skills)).

(** The loop that fills [found_skills], under its guard
    [if skills_list and cv_clean]. *)
Definition found_list (skills : list string) (cv_clean : string) : list string :=
  if negb (is_nil skills) && negb (Str.is_empty cv_clean)
  then List.filter (fun skill => Re.search_word skill cv_clean) skills
  else [].

(** [set(skills_list) - set(found_skills)] *)
Definition missing_set (skills found : list string) : gset string :=
  list_to_set skills ∖ list_to_set found.

(** [list(set(skills_list) - set(found_skills))]. Python iterates a set of
    strings in an order that depends on the hash seed of the process; here
    the order is the one of [elements]. Nothing below depends on it. *)
Definition missing_list (skills found : list string) : list string :=
  elements (missing_set skills found).

(** [len(found_skills) / len(skills_list) if skills_list else 0] *)
Definition skills_fraction (skills found : list string) : Q :=
  if negb (is_nil skills) then len_ratio found skills else 0.

Section Scoring.

(** scikit-learn: [TfidfVectorizer(stop_words='english', min_df=1)] fitted
    on the two cleaned texts, then [cosine_similarity] of the two rows, a
    numpy [float64]. [None] stands for an exception of the library (an
    empty vocabulary). *)
Variable tfidf_cosine : string -> string -> option Q.

(** The block under [# JD Match (40% weight)]: [Some] similarity of the
    library, or [None] when [jd_match] is left at the integer [0]. *)
Definition jd_cosine (jd_clean cv_clean : string) : option Q :=
  if negb (Str.is_empty (Str.strip jd_clean)) && negb (Str.is_empty (Str.strip cv_clean))
  then tfidf_cosine jd_clean cv_clean
  else None.

(** The value of [jd_match] before it is scaled. *)
Definition jd_fraction (jd_clean cv_clean : string) : Q :=
  match jd_cosine jd_clean cv_clean with
  | Some similarity => similarity
  | None => 0
  end.

(** [round(_, 2)] on a number computed from [jd_match]: numpy's when
    [jd_match] came from the library, Python's otherwise. *)
Definition round_jd (jd_clean cv_clean : string) : Q -> Q :=
  match jd_cosine jd_clean cv_clean with
  | Some _ => np_round2
  | None => round2
  end.

(** The body of the [try] of [calculate_match]. On [str] arguments no step
    of it raises (the vectorizer has a handler of its own), so the handler
    that returns the all-zero dictionary is never entered. *)
Definition calculate_match (cv_text job_description required_skills : string) : MatchResult :=
  let cv_text := if Str.is_empty cv_text then "" else cv_text in
  let job_description := if Str.is_empty job_description then "" else job_description in
  let cv_clean := clean_text cv_text in
  let jd_clean := clean_text job_description in
  let skills := skills_list required_skills in
  let jd := jd_fraction jd_clean cv_clean in
  let found := found_list skills cv_clean in
  let skills_m := skills_fraction skills found in
  let total :=
    Float.mul (Float.add (Float.mul skills_m Float.lit_0_6) (Float.mul jd Float.lit_0_4)) 100 in
  {| total_score := round_jd jd_clean cv_clean total;
     jd_match := round_jd jd_clean cv_clean (Float.mul jd 100);
     skills_match := round2 (Float.mul skills_m 100);
     missing_skills := Str.join ", " (missing_list skills found);
     found_skills := Str.join ", " found |}.

(** The two collections behind the rendered strings. *)
Definition found_of (cv_text required_skills : string) : list string :=
  found_list (skills_list required_skills) (clean_text cv_text).

Definition missing_of (cv_text required_skills : string) : list string :=
  missing_list (skills_list required_skills) (found_of cv_text required_skills).

End Scoring.

(** ** Exceptions *)

Inductive exn :=
| Exception (message : string)
| ValueError (message : string)
| IndexError (message : string)
| FileNotFoundError (message : string).

(** [str(e)] *)
Definition exn_str (e : exn) : string :=
  match e with
  | Exception m | ValueError m | IndexError m | FileNotFoundError m => m
  end.

(** The outcome of a call: a value, or the exception it raised. *)
Definition result (A : Type) : Type := A + exn.

Definition ret {A} (a : A) : result A := inl a.
Definition raise {A} (e : exn) : result A := inr e.

Definition bind {A B} (r : result A) (k : A -> result B) : result B :=
  match r with
  | inl a => k a
  | inr e => inr e
  end.

Notation "'let*' x := r 'in' k" := (bind r (fun x => k))
  (at level 10, x name, r at level 100, k at level 200).

(** [try: body / except Exception as e: raise Exception(prefix + str(e))] *)
Definition reraise {A} (prefix : string) (body : result A) : result A :=
  match body with
  | inl a => inl a
  | inr e => inr (Exception (prefix ++ exn_str e))
  end.

(** ** Text extraction *)

(** [s.rsplit(sep, 1)]: cut at the last separator, if there is one. *)
Fixpoint rsplit_last (sep : ascii) (s : string) : option (string * string) :=
  match s with
  | EmptyString => None
  | String c t =>
      match rsplit_last sep t with
      | Some (before, after) => Some (String c before, after)
      | None => if Ascii.eqb c sep then Some (EmptyString, t) else None
      end
  end.

Definition rsplit1 (sep : ascii) (s : string) : list string :=
  match rsplit_last sep s with
  | Some (before, after) => [before; after]
  | None => [s]
  end.

(** [l[i]] *)
Definition index {A} (l : list A) (i : nat) : result A :=
  match nth_error l i with
  | Some a => ret a
  | None => raise (IndexError "list index out of range")
  end.

(** [config.Config.ALLOWED_EXTENSIONS] and [UPLOAD_FOLDER] *)
Definition ALLOWED_EXTENSIONS : list string := ["pdf"; "docx"].
Definition UPLOAD_FOLDER : string := "uploads".

Definition mime_pdf : string := "application/pdf".
Definition mime_docx : string :=
  "application/vnd.openxmlformats-officedocument.wordprocessingml.document".

Definition newline : string := String (ascii_of_nat 10) EmptyString.

(** ['.' in filename and filename.rsplit('.', 1)[1].lower() in ALLOWED_EXTENSIONS] *)
Definition allowed_file (filename : string) : bool :=
  match rsplit_last "." filename with
  | Some (_, ext) => existsb (String.eqb (Str.lower ext)) ALLOWED_EXTENSIONS
  | None => false
  end.

(** The upload folder: what is stored under each path. *)
Abbreviation disk := (gmap string string).

Section Extraction.

(** python-magic, pdfminer and python-docx, as functions of the bytes of
    the file they are pointed at. *)
Variable magic_mime : string -> string.
Variable pdfminer_extract_text : string -> result string.
Variable docx_paragraphs : string -> result (list string).

Definition read_file (d : disk) (path : string) : result string :=
  match d !! path with
  | Some bytes => ret bytes
  | None => raise (FileNotFoundError path)
  end.

Definition extract_text_from_pdf (d : disk) (pdf_path : string) : result string :=
  reraise "Failed to extract PDF text: "
    (let* bytes := read_file d pdf_path in pdfminer_extract_text bytes).

Definition extract_text_from_docx (d : disk) (docx_path : string) : result string :=
  reraise "Failed to extract DOCX text: "
    (let* bytes := read_file d docx_path in
     let* paragraphs := docx_paragraphs bytes in
     ret (Str.join newline paragraphs)).

Definition extract_text_from_file (d : disk) (file_path : string) : result string :=
  reraise "File processing error: "
    (let* bytes := read_file d file_path in
     let file_type := magic_mime bytes in
     if String.eqb file_type mime_pdf then extract_text_from_pdf d file_path
     else if String.eqb file_type mime_docx then extract_text_from_docx d file_path
     else
       let* ext := index (rsplit1 "." file_path) 1 in
       let ext := Str.lower ext in
       if String.eqb ext "pdf" then extract_text_from_pdf d file_path
       else if String.eqb ext "docx" then extract_text_from_docx d file_path
       else raise (ValueError ("Unsupported file type: " ++ file_type))).

End Extraction.

(** ** Ranking *)

Record Candidate := {
  filename : string;
  analysis : MatchResult;
  cv_preview : string
}.

Definition score (c : Candidate) : Q := total_score (analysis c).

(** [candidates.sort(key=lambda x: x['analysis']['total_score'], reverse=True)].
    [list.sort] is a stable sort, and with [reverse=True] elements with
    equal keys still keep their order; this determines the outcome (see
    [rank_unique]), which the insertion sort below computes. *)
Fixpoint insert_desc (c : Candidate) (sorted : list Candidate) : list Candidate :=
  match sorted with
  | [] => [c]
  | x :: rest =>
      if Qle_bool (score x) (score c) then c :: sorted else x :: insert_desc c rest
  end.

Fixpoint rank (candidates : list Candidate) : list Candidate :=
  match candidates with
  | [] => []
  | c :: rest => insert_desc c (rank rest)
  end.

(** [candidates[0] if candidates else None] *)
Definition best_candidate (candidates : list Candidate) : option Candidate :=
  List.head candidates.

(** ** The upload loop of [analyze_cvs] *)

Record Upload := {
  upload_filename : string;
  upload_bytes : string
}.

Record JobPost := {
  job_description : string;
  required_skills : string
}.

(** What the loop has built so far: the candidates, the flashed messages
    (message, category), and the upload folder. *)
Record Batch := {
  candidates : list Candidate;
  flashes : list (string * string);
  folder : disk
}.

(** [s[:n]] *)
Fixpoint take (n : nat) (s : string) : string :=
  match n, s with
  | S n', String c t => String c (take n' t)
  | _, _ => EmptyString
  end.

(** What [analyze_cvs] hands to a template. *)
Inductive Page :=
| AnalysisResults (ranked : list Candidate) (best : option Candidate) (flashed : list (string * string))
| AnalyzeForm (flashed : list (string * string)).

Section Analysis.

Variable tfidf_cosine : string -> string -> option Q.
Variable magic_mime : string -> string.
Variable pdfminer_extract_text : string -> result string.
Variable docx_paragraphs : string -> result (list string).

(** werkzeug's [secure_filename]. *)
Variable secure_filename : string -> string.

(** One turn of [for file in files]: the file is saved, read and scored;
    an exception is flashed; the saved file is removed in every case. *)
Definition process_upload (job : JobPost) (b : Batch) (file : Upload) : Batch :=
  if negb (Str.is_empty (upload_filename file)) && allowed_file (upload_filename file)
  then
    let name := secure_filename (upload_filename file) in
    let filepath := UPLOAD_FOLDER ++ "/" ++ name in
    let saved := <[filepath := upload_bytes file]> (folder b) in
    let outcome :=
      let* cv_text := extract_text_from_file magic_mime pdfminer_extract_text docx_paragraphs
                   saved filepath in
      let analysis := calculate_match tfidf_cosine cv_text (job_description job)
                        (required_skills job) in
      ret {| filename := name;
             analysis := analysis;
             cv_preview := take 200 cv_text
                           ++ (if (200 <? String.length cv_text)%nat then "..." else "") |} in
    let removed := delete filepath saved in
    match outcome with
    | inl candidate =>
        {| candidates := candidates b ++ [candidate];
           flashes := flashes b;
           folder := removed |}
    | inr e =>
        {| candidates := candidates b;
           flashes := flashes b
                      ++ [("Error processing " ++ upload_filename file ++ ": " ++ exn_str e,
                           "error")];
           folder := removed |}
    end
  else b.

Definition process_uploads (job : JobPost) (b : Batch) (files : list Upload) : Batch :=
  fold_left (process_upload job) files b.

(** The [POST] branch of [analyze_cvs]. *)
Definition analyze_cvs (job : JobPost) (d : disk) (files : list Upload) : Page :=
  let b := process_uploads job {| candidates := []; flashes := []; folder := d |} files in
  if negb (is_nil (candidates b))
  then let ranked := rank (candidates b) in
       AnalysisResults ranked (best_candidate ranked) (flashes b)
  else AnalyzeForm
         (flashes b
          ++ [("No valid CVs processed. Please upload PDF or DOCX files.", "error")]).

End Analysis.

(** * The routes

    The tables, the session and the routes of [app.py] that read and write
    them. *)

(** ** The tables and the session *)

(** The rows of the four tables, with the columns the routes read. A
    nullable text column is an [option]. *)
Record User := {
  user_id : nat;
  email : string;
  password_hash : string;
  user_type : string;
  user_name : string
}.

Record JobRow := {
  job_id : nat;
  job_owner : nat;
  job_post : JobPost;
  is_active : bool
}.

Record Profile := {
  profile_user : nat;
  full_name : string;
  resume_text : option string;
  skills : option string
}.

Record Application := {
  application_id : nat;
  application_job : nat;
  application_seeker : nat;
  match_score : Q;
  status : string
}.

Record Database := {
  users : list User;
  jobs : list JobRow;
  profiles : list Profile;
  applications : list Application
}.

(** The keys [user_id], [user_type] and [user_name] of the Flask session;
    [None] when nobody is logged in. *)
Record Login := {
  session_user : nat;
  session_type : string;
  session_name : string
}.

Abbreviation Session := (option Login).

(** A flashed message with its category. *)
Abbreviation Flash := (string * string)%type.

(** Where a route sends the browser. *)
Inductive Response :=
| RedirectIndex
| RedirectRecruiterDashboard
| RedirectJobSeekerDashboard
| RedirectJobSeekerProfile
| RedirectViewApplications (job : nat)
| RenderIndex
| NotFound
| ServerError.

(** The id that the next row of a table gets: one more than the largest. *)
Definition next_id {A} (id : A -> nat) (rows : list A) : nat :=
  S (fold_right Nat.max 0%nat (List.map id rows)).

(** [query.filter_by(...).first()] *)
Definition first_where {A} (p : A -> bool) (rows : list A) : option A :=
  List.find p rows.

(** [a or b] on two nullable strings: [a] when it is a non-empty string. *)
Definition py_or (a b : option string) : option string :=
  match a with
  | Some s => if Str.is_empty s then b else a
  | None => b
  end.

(** A nullable string as an argument of [calculate_match], whose first
    lines turn [None] into the empty string. *)
Definition text_of (a : option string) : string :=
  match a with Some s => s | None => "" end.

(** The truth value of a nullable string. *)
Definition truthy (a : option string) : bool :=
  match a with Some s => negb (Str.is_empty s) | None => false end.

Definition is_job_seeker (s : Session) : option Login :=
  match s with
  | Some l => if String.eqb (session_type l) "job_seeker" then Some l else None
  | None => None
  end.

Definition is_recruiter (s : Session) : option Login :=
  match s with
  | Some l => if String.eqb (session_type l) "recruiter" then Some l else None
  | None => None
  end.

Definition application_of (job seeker : nat) (a : Application) : bool :=
  Nat.eqb (application_job a) job && Nat.eqb (application_seeker a) seeker.

(** ** [job_seeker_dashboard] *)

(** An entry of [job_posts]. *)
Record DashboardRow := {
  row_job : JobRow;
  row_score : Q;
  row_applied : bool;
  row_status : option string
}.

(** [list.sort(key=..., reverse=True)] for any rows: the stable sort that
    [rank] is for candidates. *)
Fixpoint insert_by {A} (key : A -> Q) (x : A) (sorted : list A) : list A :=
  match sorted with
  | [] => [x]
  | y :: rest =>
      if Qle_bool (key y) (key x) then x :: sorted else y :: insert_by key x rest
  end.

Fixpoint sort_desc {A} (key : A -> Q) (rows : list A) : list A :=
  match rows with
  | [] => []
  | x :: rest => insert_by key x (sort_desc key rest)
  end.

Section Dashboard.

Variable tfidf_cosine : string -> string -> option Q.

(** How an f-string prints a score. *)
Variable format_score : Q -> string.

(** The body of [for job in all_job_posts]. *)
Definition dashboard_row (db : Database) (uid : nat) (profile : option Profile)
    (job : JobRow) : DashboardRow :=
  let applied := first_where (application_of (job_id job) uid) (applications db) in
  let score :=
    match profile with
    | Some p =>
        if truthy (skills p)
        then total_score
               (calculate_match tfidf_cosine (text_of (py_or (resume_text p) (skills p)))
                  (job_description (job_post job)) (required_skills (job_post job)))
        else 0
    | None => 0
    end in
  {| row_job := job;
     row_score := score;
     row_applied := match applied with Some _ => true | None => false end;
     row_status := match applied with Some a => Some (status a) | None => None end |}.

(** The rows handed to the template, or the redirect for a visitor who is
    not a job seeker. [newest_first] is the result of the query for the
    active job posts, which the database orders by [created_at]. *)
Definition job_seeker_dashboard (db : Database) (s : Session) (newest_first : list JobRow)
    : Response + list DashboardRow :=
  match is_job_seeker s with
  | None => inl RedirectIndex
  | Some l =>
      let profile := first_where (fun p => Nat.eqb (profile_user p) (session_user l))
                       (profiles db) in
      inr (sort_desc row_score
             (List.map (dashboard_row db (session_user l) profile) newest_first))
  end.

(** ** [apply_job] *)

Definition apply_job (db : Database) (s : Session) (job : nat)
    : Database * list Flash * Response :=
  match is_job_seeker s with
  | None => (db, [], RedirectIndex)
  | Some l =>
      let uid := session_user l in
      match first_where (application_of job uid) (applications db) with
      | Some _ =>
          (db, [("You have already applied for this job", "warning")],
           RedirectJobSeekerDashboard)
      | None =>
          let profile := first_where (fun p => Nat.eqb (profile_user p) uid) (profiles db) in
          match first_where (fun j => Nat.eqb (job_id j) job) (jobs db) with
          | None => (db, [], NotFound)
          | Some j =>
              match profile with
              | None =>
                  (db, [("Please complete your profile before applying", "error")],
                   RedirectJobSeekerDashboard)
              | Some p =>
                  let result :=
                    calculate_match tfidf_cosine
                      (text_of (py_or (resume_text p) (skills p)))
                      (job_description (job_post j)) (required_skills (job_post j)) in
                  let application :=
                    {| application_id := next_id application_id (applications db);
                       application_job := job;
                       application_seeker := uid;
                       match_score := total_score result;
                       status := "pending" |} in
                  ({| users := users db;
                      jobs := jobs db;
                      profiles := profiles db;
                      applications := (applications db ++ [application])%list |},
                   [("Application submitted successfully! Match score: "
                     ++ format_score (total_score result) ++ "%", "success")],
                   RedirectJobSeekerDashboard)
              end
          end
      end
  end.

End Dashboard.

(** ** [update_application_status] *)

Definition set_status (id : nat) (new_status : string) (a : Application) : Application :=
  if Nat.eqb (application_id a) id
  then {| application_id := application_id a;
          application_job := application_job a;
          application_seeker := application_seeker a;
          match_score := match_score a;
          status := new_status |}
  else a.

Definition update_application_status (db : Database) (s : Session) (id : nat)
    (new_status : string) : Database * list Flash * Response :=
  match is_recruiter s with
  | None => (db, [], RedirectIndex)
  | Some l =>
      match first_where (fun a => Nat.eqb (application_id a) id) (applications db) with
      | None => (db, [], NotFound)
      | Some a =>
          match first_where (fun j => Nat.eqb (job_id j) (application_job a)) (jobs db) with
          | None => (db, [], ServerError)
          | Some j =>
              if negb (Nat.eqb (job_owner j) (session_user l))
              then (db, [("Access denied", "error")], RedirectRecruiterDashboard)
              else
                ({| users := users db;
                    jobs := jobs db;
                    profiles := profiles db;
                    applications := List.map (set_status id new_status) (applications db) |},
                 [("Application status updated to " ++ new_status, "success")],
                 RedirectViewApplications (application_job a))
          end
      end
  end.

(** ** [index]: login and automatic registration

    The route is [index_route] here, [index] being the subscript of a list. *)

(** The fields of [LoginForm]. *)
Record LoginForm := {
  form_email : string;
  form_password : string;
  form_user_type : string
}.

Definition login_of (u : User) : Login :=
  {| session_user := user_id u; session_type := user_type u; session_name := user_name u |}.

Definition dashboard_of (type : string) : Response :=
  if String.eqb type "recruiter" then RedirectRecruiterDashboard
  else RedirectJobSeekerDashboard.

(** [email.split('@')[0]] *)
Definition name_of_email (address : string) : string :=
  match Str.split_on "@" address with
  | name :: _ => name
  | [] => ""
  end.

Section Index.

(** werkzeug's password hashing, and [form.validate_on_submit()] of
    Flask-WTF (a POST whose fields pass their validators). *)
Variable generate_password_hash : string -> string.
Variable check_password_hash : string -> string -> bool.
Variable validate_on_submit : option LoginForm -> bool.

Definition index_route (db : Database) (s : Session) (request : option LoginForm)
    : Database * Session * list Flash * Response :=
  match s with
  | Some l => (db, s, [], dashboard_of (session_type l))
  | None =>
      match request with
      | Some form =>
          if validate_on_submit request
          then
            match first_where (fun u => String.eqb (email u) (form_email form)) (users db) with
            | Some user =>
                if check_password_hash (password_hash user) (form_password form)
                   && String.eqb (user_type user) (form_user_type form)
                then (db, Some (login_of user),
                      [("Welcome back, " ++ user_name user ++ "!", "success")],
                      dashboard_of (user_type user))
                else (db, None,
                      [("Invalid credentials or user type mismatch", "error")], RenderIndex)
            | None =>
                let new_user :=
                  {| user_id := next_id user_id (users db);
                     email := form_email form;
                     password_hash := generate_password_hash (form_password form);
                     user_type := form_user_type form;
                     user_name := name_of_email (form_email form) |} in
                ({| users := (users db ++ [new_user])%list;
                    jobs := jobs db;
                    profiles := profiles db;
                    applications := applications db |},
                 Some (login_of new_user),
                 [("Account created successfully! Please complete your profile.", "success")],
                 if String.eqb (user_type new_user) "recruiter"
                 then RedirectRecruiterDashboard
                 else RedirectJobSeekerProfile)
            end
          else (db, None, [], RenderIndex)
      | None => (db, None, [], RenderIndex)
      end
  end.

End Index.

(** ** [job_seeker_profile]: the uploaded resume and the stored profile *)

(** What the loop over [resume_file] leaves: the text, the flashed errors
    and the upload folder. *)
Record ResumeScan := {
  scan_text : string;
  scan_flashes : list Flash;
  scan_folder : disk
}.

Section ProfileRoute.

Variable magic_mime : string -> string.
Variable pdfminer_extract_text : string -> result string.
Variable docx_paragraphs : string -> result (list string).
Variable secure_filename : string -> string.

(** [for file in files]: the first accepted file that can be read gives
    the text and ends the loop ([break]); a file that cannot be read is
    flashed; the saved copy is removed either way. *)
Fixpoint scan_resume (d : disk) (files : list Upload) : ResumeScan :=
  match files with
  | [] => {| scan_text := ""; scan_flashes := []; scan_folder := d |}
  | file :: rest =>
      if negb (Str.is_empty (upload_filename file)) && allowed_file (upload_filename file)
      then
        let filepath := UPLOAD_FOLDER ++ "/" ++ secure_filename (upload_filename file) in
        let saved := <[filepath := upload_bytes file]> d in
        let removed := delete filepath saved in
        match extract_text_from_file magic_mime pdfminer_extract_text docx_paragraphs
                saved filepath with
        | inl text => {| scan_text := text; scan_flashes := []; scan_folder := removed |}
        | inr e =>
            let later := scan_resume removed rest in
            {| scan_text := scan_text later;
               scan_flashes := ("Error processing resume: " ++ exn_str e, "error")
                               :: scan_flashes later;
               scan_folder := scan_folder later |}
        end
      else scan_resume d rest
  end.

(** The fields of [JobSeekerProfileForm] that are stored. *)
Record ProfileForm := {
  form_full_name : string;
  form_skills : string;
  form_files : list Upload
}.

(** The first row that satisfies [p], changed by [f]. *)
Fixpoint update_first {A} (p : A -> bool) (f : A -> A) (rows : list A) : list A :=
  match rows with
  | [] => []
  | x :: rest => if p x then f x :: rest else x :: update_first p f rest
  end.

(** The branch [if form.validate_on_submit()] of [job_seeker_profile], for
    a logged-in job seeker. *)
Definition save_profile (db : Database) (d : disk) (uid : nat) (form : ProfileForm)
    : Database * disk * list Flash * Response :=
  let scan := scan_resume d (form_files form) in
  let mine := fun p => Nat.eqb (profile_user p) uid in
  let new_profiles :=
    match first_where mine (profiles db) with
    | Some _ =>
        update_first mine
          (fun p => {| profile_user := profile_user p;
                       full_name := form_full_name form;
                       resume_text := if negb (Str.is_empty (scan_text scan))
                                      then Some (scan_text scan)
                                      else resume_text p;
                       skills := Some (form_skills form) |})
          (profiles db)
    | None =>
        (profiles db
         ++ [{| profile_user := uid;
                full_name := form_full_name form;
                resume_text := Some (scan_text scan);
                skills := Some (form_skills form) |}])%list
    end in
  ({| users := users db;
      jobs := jobs db;
      profiles := new_profiles;
      applications := applications db |},
   scan_folder scan,
   (scan_flashes scan ++ [("Profile updated successfully!", "success")])%list,
   RedirectJobSeekerDashboard).

End ProfileRoute.

(** * Properties *)

(** ** Character classes *)

Module CharFacts.
Import Char.

Ltac all_chars c :=
  destruct c as [[] [] [] [] [] [] [] []]; vm_compute; try reflexivity; try discriminate.

Lemma lower_lower c : lower (lower c) = lower c.
Proof. all_chars c. Qed.

Lemma is_space_lower c : is_space (lower c) = is_space c.
Proof. all_chars c. Qed.

Lemma is_word_lower c : is_word (lower c) = is_word c.
Proof. all_chars c. Qed.

Lemma is_hyphen_lower c : is_hyphen (lower c) = is_hyphen c.
Proof. all_chars c. Qed.

Lemma is_hyphen_spec c : is_hyphen c = true <-> c = "-"%char.
Proof. split; [| intros ->; reflexivity]. all_chars c. Qed.



Lemma keep_lower c : Str.keep_skill_char (lower c) = Str.keep_skill_char c.
Proof.
  unfold Str.keep_skill_char.
  now rewrite is_word_lower, is_space_lower, is_hyphen_lower.
Qed.

End CharFacts.

(** ** Stripping and collapsing whitespace *)

Module StrFacts.
Import Str.

Lemma is_empty_true s : is_empty s = true <-> s = "".
Proof. destruct s; simpl; split; congruence. Qed.

Lemma smap_smap f g s : smap f (smap g s) = smap (fun c => f (g c)) s.
Proof. induction s as [| c t IH]; simpl; [reflexivity | now rewrite IH]. Qed.

Lemma smap_ext f g s : (forall c, f c = g c) -> smap f s = smap g s.
Proof. intros E. induction s as [| c t IH]; simpl; [reflexivity | now rewrite E, IH]. Qed.

Lemma lower_idempotent s : lower (lower s) = lower s.
Proof. unfold lower. rewrite smap_smap. apply smap_ext, CharFacts.lower_lower. Qed.

(** A string all of whose characters are lower-case and survive the
    punctuation filter of [normalize_skill]. *)
Definition settled (s : string) : bool :=
  sforall (fun c => Ascii.eqb (Char.lower c) c && keep_skill_char c) s.

Lemma settled_fixed s :
  settled s = true -> lower s = s /\ sub_skill_punct s = s.
Proof.
  unfold settled, lower, sub_skill_punct.
  induction s as [| c t IH]; simpl; [now split |].
  intros H. apply andb_prop in H as [Hc Ht]. apply andb_prop in Hc as [Hl Hk].
  apply Ascii.eqb_eq in Hl. destruct (IH Ht) as [IH1 IH2].
  rewrite Hl, Hk, IH1, IH2. now split.
Qed.

Lemma settled_filter_lower s : settled (sub_skill_punct (lower s)) = true.
Proof.
  unfold settled, lower, sub_skill_punct.
  induction s as [| c t IH]; simpl; [reflexivity |].
  destruct (keep_skill_char (Char.lower c)) eqn:Hk; simpl; [| exact IH].
  now rewrite CharFacts.lower_lower, Ascii.eqb_refl, Hk, IH.
Qed.

Lemma settled_collapse b s : settled s = true -> settled (collapse b s) = true.
Proof.
  unfold settled. revert b.
  induction s as [| c t IH]; simpl; intros b H; [reflexivity |].
  apply andb_prop in H as [Hc Ht].
  destruct (Char.is_space c).
  - destruct b; [now apply IH |].
    change (sforall ?p (String " " ?r)) with (sforall p r). now apply IH.
  - simpl. rewrite Hc. now apply IH.
Qed.

Lemma settled_lstrip s : settled s = true -> settled (lstrip s) = true.
Proof.
  unfold settled. induction s as [| c t IH]; simpl; intros H; [reflexivity |].
  destruct (Char.is_space c); [| exact H].
  apply andb_prop in H as [_ Ht]. auto.
Qed.

Lemma settled_rstrip s : settled s = true -> settled (rstrip s) = true.
Proof.
  unfold settled. induction s as [| c t IH]; simpl; intros H; [reflexivity |].
  apply andb_prop in H as [Hc Ht].
  destruct (Char.is_space c && is_empty (rstrip t)); simpl; [reflexivity |].
  rewrite Hc. auto.
Qed.

(** Whitespace is single spaces only; [after_space] tells that the
    previous character was whitespace. *)
Fixpoint single_spaced (after_space : bool) (s : string) : bool :=
  match s with
  | EmptyString => true
  | String c t =>
      if Char.is_space c
      then Ascii.eqb c " " && negb after_space && single_spaced true t
      else single_spaced false t
  end.

Lemma single_spaced_collapse b s : single_spaced b (collapse b s) = true.
Proof.
  revert b. induction s as [| c t IH]; intros b; simpl; [reflexivity |].
  destruct (Char.is_space c) eqn:Hc.
  - destruct b; simpl; [apply IH | apply IH].
  - simpl. rewrite Hc. apply IH.
Qed.

Lemma single_spaced_fixed b s : single_spaced b s = true -> collapse b s = s.
Proof.
  revert b. induction s as [| c t IH]; intros b; simpl; [reflexivity |].
  destruct (Char.is_space c).
  - intros H. apply andb_prop in H as [H Ht]. apply andb_prop in H as [Hc Hb].
    apply Ascii.eqb_eq in Hc. apply negb_true_iff in Hb. subst.
    now rewrite (IH true Ht).
  - intros H. now rewrite (IH false H).
Qed.

Lemma single_spaced_weaken b s : single_spaced b s = true -> single_spaced false s = true.
Proof.
  destruct s as [| c t]; simpl; [reflexivity |].
  destruct (Char.is_space c); [| trivial].
  intros H. apply andb_prop in H as [H Ht]. apply andb_prop in H as [Hc _].
  now rewrite Hc, Ht.
Qed.

Lemma single_spaced_lstrip s :
  single_spaced false s = true -> single_spaced false (lstrip s) = true.
Proof.
  induction s as [| c t IH]; simpl; [reflexivity |].
  destruct (Char.is_space c) eqn:Hc.
  - intros H. apply andb_prop in H as [_ Ht]. apply IH. eapply single_spaced_weaken, Ht.
  - intros H. simpl. now rewrite Hc.
Qed.

Lemma single_spaced_rstrip b s :
  single_spaced b s = true -> single_spaced b (rstrip s) = true.
Proof.
  revert b. induction s as [| c t IH]; intros b; simpl; [reflexivity |].
  destruct (Char.is_space c) eqn:Hc; simpl.
  - intros H. apply andb_prop in H as [H Ht].
    destruct (is_empty (rstrip t)); simpl; [reflexivity |].
    rewrite Hc, H. simpl. now apply IH.
  - intros H. simpl. rewrite Hc. now apply IH.
Qed.

Lemma rstrip_rstrip s : rstrip (rstrip s) = rstrip s.
Proof.
  induction s as [| c t IH]; simpl; [reflexivity |].
  destruct (Char.is_space c && is_empty (rstrip t)) eqn:E; simpl; [reflexivity |].
  now rewrite IH, E.
Qed.

Lemma lstrip_rstrip_lstrip s : lstrip (rstrip (lstrip s)) = rstrip (lstrip s).
Proof.
  induction s as [| c t IH]; simpl; [reflexivity |].
  destruct (Char.is_space c) eqn:Hc; [exact IH |].
  simpl. rewrite Hc. simpl. now rewrite Hc.
Qed.

Lemma strip_strip s : strip (strip s) = strip s.
Proof. unfold strip. now rewrite lstrip_rstrip_lstrip, rstrip_rstrip. Qed.

End StrFacts.

(** ** [normalize_skill] *)

Module NormalizeFacts.
Import Str StrFacts.

(** The first [re.sub] of [normalize_skill] after [lower]. *)
Definition letters (s : string) : string := sub_skill_punct (lower s).

Lemma letters_cons c t :
  letters (String c t)
  = if keep_skill_char c then String (Char.lower c) (letters t) else letters t.
Proof. unfold letters, lower, sub_skill_punct. simpl. now rewrite CharFacts.keep_lower. Qed.

Lemma letters_space c t :
  Char.is_space c = true -> letters (String c t) = String (Char.lower c) (letters t).
Proof.
  intros Hc. rewrite letters_cons. unfold keep_skill_char. rewrite Hc.
  now rewrite orb_true_r.
Qed.

Lemma rstrip_cons c t :
  rstrip (String c t)
  = if Char.is_space c && is_empty (rstrip t) then "" else String c (rstrip t).
Proof. reflexivity. Qed.

Lemma rstrip_lstrip_comm s : rstrip (lstrip s) = lstrip (rstrip s).
Proof.
  induction s as [| c t IH]; [reflexivity |].
  rewrite rstrip_cons. simpl lstrip at 1.
  destruct (Char.is_space c) eqn:Hc; simpl andb.
  - destruct (is_empty (rstrip t)) eqn:E.
    + apply is_empty_true in E. rewrite IH, E. reflexivity.
    + rewrite IH. simpl. now rewrite Hc.
  - rewrite rstrip_cons, Hc. simpl. now rewrite Hc.
Qed.

Lemma lstrip_collapse b s : lstrip (collapse b s) = lstrip (collapse false s).
Proof.
  destruct s as [| c t]; [reflexivity |]. simpl.
  destruct (Char.is_space c); [| reflexivity]. now destruct b.
Qed.

Lemma lstrip_letters s :
  lstrip (collapse false (letters (lstrip s))) = lstrip (collapse false (letters s)).
Proof.
  induction s as [| c t IH]; [reflexivity |]. simpl lstrip at 2.
  destruct (Char.is_space c) eqn:Hc; [| reflexivity].
  rewrite IH, (letters_space c t Hc). simpl collapse.
  rewrite CharFacts.is_space_lower, Hc. simpl. apply eq_sym, lstrip_collapse.
Qed.

Lemma rstrip_blank b s :
  rstrip s = "" -> rstrip (collapse b (letters s)) = "".
Proof.
  revert b. induction s as [| c t IH]; intros b; [reflexivity |].
  rewrite rstrip_cons. destruct (Char.is_space c) eqn:Hc; simpl andb; [| discriminate].
  destruct (is_empty (rstrip t)) eqn:E; [| discriminate]. intros _.
  apply is_empty_true in E. rewrite (letters_space c t Hc). simpl collapse.
  rewrite CharFacts.is_space_lower, Hc. destruct b; [now apply IH |].
  rewrite rstrip_cons, (IH true E). reflexivity.
Qed.

Lemma rstrip_letters b s :
  rstrip (collapse b (letters (rstrip s))) = rstrip (collapse b (letters s)).
Proof.
  revert b. induction s as [| c t IH]; intros b; [reflexivity |].
  rewrite rstrip_cons.
  destruct (Char.is_space c && is_empty (rstrip t)) eqn:E.
  - apply andb_prop in E as [Hc E]. apply is_empty_true in E.
    apply eq_sym, rstrip_blank. rewrite rstrip_cons, Hc, E. reflexivity.
  - rewrite !letters_cons. destruct (keep_skill_char c); [| apply IH].
    simpl collapse. destruct (Char.is_space (Char.lower c)).
    + destruct b; [apply IH |]. now rewrite !rstrip_cons, IH.
    + now rewrite !rstrip_cons, IH.
Qed.

Lemma normalize_lstrip s : normalize_skill (lstrip s) = normalize_skill s.
Proof.
  unfold normalize_skill, strip, sub_space_runs. fold (letters (lstrip s)) (letters s).
  now rewrite lstrip_letters.
Qed.

Lemma normalize_rstrip s : normalize_skill (rstrip s) = normalize_skill s.
Proof.
  unfold normalize_skill, strip, sub_space_runs. fold (letters (rstrip s)) (letters s).
  now rewrite !rstrip_lstrip_comm, rstrip_letters.
Qed.

Lemma normalize_strip s : normalize_skill (strip s) = normalize_skill s.
Proof. unfold strip. now rewrite normalize_rstrip, normalize_lstrip. Qed.

Lemma normalize_settled s : settled (normalize_skill s) = true.
Proof.
  unfold normalize_skill, strip, sub_space_runs.
  apply settled_rstrip, settled_lstrip, settled_collapse, settled_filter_lower.
Qed.

Lemma normalize_single_spaced s : single_spaced false (normalize_skill s) = true.
Proof.
  unfold normalize_skill, strip, sub_space_runs.
  apply single_spaced_rstrip, single_spaced_lstrip, single_spaced_collapse.
Qed.

Lemma normalize_stripped s : strip (normalize_skill s) = normalize_skill s.
Proof. unfold normalize_skill. apply strip_strip. Qed.

Lemma normalize_idempotent s : normalize_skill (normalize_skill s) = normalize_skill s.
Proof.
  destruct (settled_fixed _ (normalize_settled s)) as [Hl Hp].
  unfold normalize_skill at 1. simpl. rewrite Hl, Hp. unfold sub_space_runs.
  rewrite (single_spaced_fixed _ _ (normalize_single_spaced s)).
  apply normalize_stripped.
Qed.

Lemma normalize_lower s : normalize_skill (lower s) = normalize_skill s.
Proof. unfold normalize_skill. simpl. now rewrite lower_idempotent. Qed.

End NormalizeFacts.

(** C6: [normalize_skill] is idempotent; it does not tell apart strings
    that differ only in case, nor strings that differ only in surrounding
    whitespace, and its result has no surrounding whitespace (so
    ["Python "] and ["python"] normalize alike); it is a total function,
    and the empty string normalizes to the empty string. *)
Theorem normalize_skill_idempotent_case_trim :
  (forall x, normalize_skill (normalize_skill x) = normalize_skill x)
  /\ (forall x y, Str.lower x = Str.lower y -> normalize_skill x = normalize_skill y)
  /\ (forall x, normalize_skill (Str.strip x) = normalize_skill x)
  /\ (forall x, Str.strip (normalize_skill x) = normalize_skill x)
  /\ normalize_skill "Python " = normalize_skill "python"
  /\ (forall x, exists token, normalize_skill x = token)
  /\ normalize_skill "" = "".
Proof.
  repeat split.
  - apply NormalizeFacts.normalize_idempotent.
  - intros x y E.
    rewrite <- (NormalizeFacts.normalize_lower x), <- (NormalizeFacts.normalize_lower y).
    now rewrite E.
  - apply NormalizeFacts.normalize_strip.
  - apply NormalizeFacts.normalize_stripped.
  - intros x. now exists (normalize_skill x).
Qed.

(** ** Rounding *)

Module RoundFacts.

Lemma round_half_even_above_floor x : (Qfloor x <= round_half_even x)%Z.
Proof. unfold round_half_even. destruct Qcompare; [destruct Z.even |..]; lia. Qed.

Lemma round_half_even_below_ceil x : (round_half_even x <= Qfloor x + 1)%Z.
Proof. unfold round_half_even. destruct Qcompare; [destruct Z.even |..]; lia. Qed.

Lemma round_half_even_lower n x : inject_Z n <= x -> (n <= round_half_even x)%Z.
Proof.
  intros H. apply Qfloor_resp_le in H. rewrite Qfloor_Z in H.
  pose proof (round_half_even_above_floor x). lia.
Qed.

Lemma round_half_even_upper n x : x <= inject_Z n -> (round_half_even x <= n)%Z.
Proof.
  intros H. pose proof (Qfloor_resp_le _ _ H) as Hf. rewrite Qfloor_Z in Hf.
  destruct (Z.eq_dec (Qfloor x) n) as [E | E].
  - unfold round_half_even. rewrite E.
    destruct (Qcompare (x - inject_Z n) (1 # 2)) eqn:C; [| lia |].
    + apply Qeq_alt in C. lra.
    + apply Qgt_alt in C. lra.
  - pose proof (round_half_even_below_ceil x). lia.
Qed.

Lemma round_half_even_comp x y : x == y -> round_half_even x = round_half_even y.
Proof.
  intros E. unfold round_half_even. rewrite (Qfloor_comp _ _ E).
  assert (C : Qcompare (x - inject_Z (Qfloor y)) (1 # 2)
              = Qcompare (y - inject_Z (Qfloor y)) (1 # 2)).
  { apply Qcompare_comp; [now rewrite E | reflexivity]. }
  now rewrite C.
Qed.

(** The rounded value is at most one half away. *)
Lemma round_half_even_near x :
  x - (1 # 2) <= inject_Z (round_half_even x) <= x + (1 # 2).
Proof.
  pose proof (Qfloor_le x) as Hl. pose proof (Qlt_floor x) as Hu.
  rewrite inject_Z_plus in Hu. change (inject_Z 1) with 1 in Hu.
  unfold round_half_even.
  destruct (Qcompare (x - inject_Z (Qfloor x)) (1 # 2)) eqn:C.
  - apply Qeq_alt in C. destruct (Z.even (Qfloor x)).
    + lra.
    + rewrite inject_Z_plus. change (inject_Z 1) with 1. lra.
  - apply Qlt_alt in C. lra.
  - apply Qgt_alt in C. rewrite inject_Z_plus. change (inject_Z 1) with 1. lra.
Qed.

End RoundFacts.

(** ** Binary64 arithmetic *)

Module FloatFacts.
Import Float RoundFacts.

Lemma pow2_pos e : 0 < pow2 e.
Proof. apply Qpower_0_lt. reflexivity. Qed.

Lemma pow2_plus a b : pow2 (a + b) == pow2 a * pow2 b.
Proof. apply Qpower_plus. discriminate. Qed.

Lemma pow2_succ a : pow2 (a + 1) == 2 * pow2 a.
Proof. rewrite pow2_plus. change (pow2 1) with (2 * 1). ring. Qed.

Lemma pow2_inject e : (0 <= e)%Z -> inject_Z (2 ^ e) == pow2 e.
Proof. intros H. now apply Zpower_Qpower. Qed.

Lemma pow2_le a b : (a <= b)%Z -> pow2 a <= pow2 b.
Proof. intros H. apply Qpower_le_compat_l; [exact H | discriminate]. Qed.

Lemma log2_bounds p :
  (0 < p)%Z -> pow2 (Z.log2 p) <= inject_Z p /\ inject_Z p < 2 * pow2 (Z.log2 p).
Proof.
  intros Hp. destruct (Z.log2_spec p Hp) as [Hl Hu].
  pose proof (Z.log2_nonneg p) as H0.
  rewrite <- pow2_succ, <- !pow2_inject by lia.
  rewrite <- Zle_Qle, <- Zlt_Qlt. now split.
Qed.

Lemma ilog2_spec x : 0 < x -> pow2 (ilog2 x) <= x /\ x < pow2 (ilog2 x + 1).
Proof.
  intros Hx. destruct x as [p q].
  assert (Hp : (0 < p)%Z) by (unfold Qlt in Hx; simpl in Hx; lia).
  destruct (log2_bounds p Hp) as [Pl Pu].
  destruct (log2_bounds (Zpos q) eq_refl) as [Dl Du].
  pose proof (pow2_pos (Z.log2 p)) as HA. pose proof (pow2_pos (Z.log2 (Zpos q))) as HB.
  assert (Hd : pow2 (Z.log2 p - Z.log2 (Zpos q)) * pow2 (Z.log2 (Zpos q)) == pow2 (Z.log2 p)).
  { rewrite <- pow2_plus. now replace (Z.log2 p - Z.log2 (Zpos q) + Z.log2 (Zpos q))%Z
      with (Z.log2 p) by lia. }
  assert (Hq : (p # q) * inject_Z (Zpos q) == inject_Z p).
  { rewrite (Qmake_Qdiv p q). field. discriminate. }
  unfold ilog2. cbn [Qnum Qden].
  set (d := (Z.log2 p - Z.log2 (Z.pos q))%Z) in *.
  set (A := pow2 (Z.log2 p)) in *. set (B := pow2 (Z.log2 (Z.pos q))) in *.
  set (P := inject_Z p) in *. set (D := inject_Z (Z.pos q)) in *.
  set (x := p # q) in *.
  destruct (Qle_bool (pow2 d) x) eqn:E.
  - apply Qle_bool_iff in E. split; [exact E |].
    rewrite pow2_succ. generalize dependent (pow2 d). intros T Hd E. nra.
  - assert (Hlt : x < pow2 d).
    { apply Qnot_le_lt. intros H. apply Qle_bool_iff in H. congruence. }
    replace (d - 1 + 1)%Z with d by lia. split; [| exact Hlt].
    assert (H2 : pow2 d == 2 * pow2 (d - 1)).
    { rewrite <- pow2_succ. now replace (d - 1 + 1)%Z with d by lia. }
    generalize dependent (pow2 (d - 1)). generalize dependent (pow2 d).
    intros T Hd Hlt T' H2. nra.
Qed.

Lemma ilog2_mono x y : 0 < x -> x <= y -> (ilog2 x <= ilog2 y)%Z.
Proof.
  intros Hx Hxy.
  destruct (ilog2_spec x Hx) as [Lx _].
  destruct (ilog2_spec y) as [_ Uy]; [lra |].
  assert (H : pow2 (ilog2 x) < pow2 (ilog2 y + 1)) by lra.
  apply Qpower_lt_compat_l_inv in H; [lia | reflexivity].
Qed.

Lemma exponent_mono x y : 0 < x -> x <= y -> (exponent x <= exponent y)%Z.
Proof.
  intros Hx Hxy. unfold exponent.
  assert (H : (ilog2 (Qabs x) <= ilog2 (Qabs y))%Z).
  { apply ilog2_mono; rewrite !Qabs_pos; lra. }
  lia.
Qed.

Lemma fl_spec x :
  fl x == inject_Z (round_half_even (Qred x / pow2 (exponent (Qred x))))
          * pow2 (exponent (Qred x)).
Proof. unfold fl. apply Qred_correct. Qed.

Lemma fl_comp x y : x == y -> fl x = fl y.
Proof. intros E. unfold fl. now rewrite (Qred_complete _ _ E). Qed.

Lemma fl_0 : fl 0 = 0.
Proof. vm_compute. reflexivity. Qed.

Lemma fl_nonneg x : 0 <= x -> 0 <= fl x.
Proof.
  intros Hx. rewrite fl_spec. pose proof (pow2_pos (exponent (Qred x))) as He.
  apply Qmult_le_0_compat; [| lra].
  change 0 with (inject_Z 0). rewrite <- Zle_Qle. apply round_half_even_lower.
  change (inject_Z 0) with 0. apply Qle_shift_div_l; [exact He |].
  pose proof (Qred_correct x). lra.
Qed.

(** A binary64 number: rounding leaves it as it is. *)
Definition representable (c : Q) : Prop := fl c == c.

(** Rounding does not cross a binary64 number. *)
Lemma fl_le x c : 0 <= x -> x <= c -> representable c -> fl x <= c.
Proof.
  intros H0 Hxc Hc.
  destruct (Qlt_le_dec 0 x) as [Hx | Hx].
  2:{ assert (E : x == 0) by lra. rewrite (fl_comp _ _ E), fl_0. lra. }
  unfold representable in Hc. rewrite fl_spec in Hc. rewrite fl_spec.
  assert (Hm : (exponent (Qred x) <= exponent (Qred c))%Z).
  { pose proof (Qred_correct x). pose proof (Qred_correct c). apply exponent_mono; lra. }
  set (ex := exponent (Qred x)) in *. set (ec := exponent (Qred c)) in *.
  set (N := round_half_even (Qred c / pow2 ec)) in *.
  pose proof (pow2_pos ex) as Hex.
  assert (Hgrid : c == inject_Z (N * 2 ^ (ec - ex)) * pow2 ex).
  { rewrite inject_Z_mult, pow2_inject by lia. rewrite <- Hc at 1.
    rewrite <- Qmult_assoc, <- pow2_plus. now replace (ec - ex + ex)%Z with ec by lia. }
  assert (Hr : (round_half_even (Qred x / pow2 ex) <= N * 2 ^ (ec - ex))%Z).
  { apply round_half_even_upper. apply Qle_shift_div_r; [exact Hex |].
    pose proof (Qred_correct x). lra. }
  rewrite Hgrid. apply Qmult_le_compat_r; [| lra]. now rewrite <- Zle_Qle.
Qed.

(** The rounding error is at most half a unit in the last place. *)
Lemma fl_near x :
  x - pow2 (exponent (Qred x)) * (1 # 2) <= fl x <= x + pow2 (exponent (Qred x)) * (1 # 2).
Proof.
  rewrite fl_spec. set (e := exponent (Qred x)). pose proof (pow2_pos e) as He.
  pose proof (round_half_even_near (Qred x / pow2 e)) as [Hl Hu].
  assert (E : Qred x / pow2 e * pow2 e == x).
  { transitivity (Qred x); [field; lra | apply Qred_correct]. }
  generalize dependent (inject_Z (round_half_even (Qred x / pow2 e))).
  generalize dependent (Qred x / pow2 e). intros y E r Hl Hu. nra.
Qed.

(** The error of rounding a number between 0 and a bound. *)
Lemma fl_near_below x c :
  0 <= x -> x <= c ->
  x - pow2 (exponent (Qred c)) * (1 # 2) <= fl x <= x + pow2 (exponent (Qred c)) * (1 # 2).
Proof.
  intros H0 Hxc. destruct (Qlt_le_dec 0 x) as [Hx | Hx].
  - pose proof (fl_near x) as Hn.
    assert (Hm : pow2 (exponent (Qred x)) <= pow2 (exponent (Qred c))).
    { pose proof (Qred_correct x). pose proof (Qred_correct c).
      apply pow2_le, exponent_mono; lra. }
    lra.
  - assert (E : x == 0) by lra. rewrite (fl_comp _ _ E), fl_0.
    pose proof (pow2_pos (exponent (Qred c))). lra.
Qed.

Lemma representable_1 : representable 1.
Proof. vm_compute. reflexivity. Qed.

Lemma representable_100 : representable 100.
Proof. vm_compute. reflexivity. Qed.

Lemma representable_10000 : representable 10000.
Proof. vm_compute. reflexivity. Qed.

Lemma representable_lit_0_6 : representable lit_0_6.
Proof. vm_compute. reflexivity. Qed.

Lemma representable_lit_0_4 : representable lit_0_4.
Proof. vm_compute. reflexivity. Qed.

Lemma lit_sum : lit_0_6 + lit_0_4 == 1.
Proof. vm_compute. reflexivity. Qed.

Lemma lit_0_6_value : lit_0_6 = 5404319552844595 # 9007199254740992.
Proof. vm_compute. reflexivity. Qed.

Lemma lit_0_6_range : 0 <= lit_0_6 <= 1.
Proof. rewrite lit_0_6_value. split; discriminate. Qed.

Lemma ulp_1 : pow2 (exponent (Qred 1)) = 1 # 4503599627370496.
Proof. vm_compute. reflexivity. Qed.

Lemma ulp_100 : pow2 (exponent (Qred 100)) = 1 # 70368744177664.
Proof. vm_compute. reflexivity. Qed.

Lemma ulp_10000 : pow2 (exponent (Qred 10000)) = 1 # 549755813888.
Proof. vm_compute. reflexivity. Qed.

Lemma lit_0_4_value : lit_0_4 = 3602879701896397 # 9007199254740992.
Proof. vm_compute. reflexivity. Qed.

Lemma lit_0_4_range : 0 <= lit_0_4 <= 1.
Proof. rewrite lit_0_4_value. split; discriminate. Qed.


Lemma mul_range a c :
  0 <= a <= 1 -> 0 <= c -> representable c -> 0 <= mul a c <= c.
Proof.
  intros [Ha0 Ha1] Hc0 Hc. unfold mul. split.
  - apply fl_nonneg. nra.
  - apply fl_le; [nra | nra | exact Hc].
Qed.

Lemma div_range a b : 0 <= a -> a <= b -> 0 < b -> 0 <= div a b <= 1.
Proof.
  intros Ha Hab Hb. unfold div. split.
  - apply fl_nonneg. apply Qle_shift_div_l; lra.
  - apply fl_le; [apply Qle_shift_div_l; lra | apply Qle_shift_div_r; lra |].
    exact representable_1.
Qed.

End FloatFacts.

(** ** The two roundings to two decimals *)

Module Round2Facts.
Import Float RoundFacts FloatFacts.

(** Both roundings give the float nearest to some number of hundredths. *)
Lemma hundredths_range k : (0 <= k <= 10000)%Z -> 0 <= fl (inject_Z k / 100) <= 100.
Proof.
  intros [Hk0 Hk1].
  assert (H0 : 0 <= inject_Z k) by (change 0 with (inject_Z 0); now rewrite <- Zle_Qle).
  assert (H1 : inject_Z k <= 10000)
    by (change 10000 with (inject_Z 10000); now rewrite <- Zle_Qle).
  split.
  - apply fl_nonneg. apply Qle_shift_div_l; [reflexivity | lra].
  - apply fl_le; [| | exact representable_100].
    + apply Qle_shift_div_l; [reflexivity | lra].
    + apply Qle_shift_div_r; [reflexivity | lra].
Qed.

Lemma round2_range x : 0 <= x <= 100 -> 0 <= round2 x <= 100.
Proof.
  intros [H0 H1]. unfold round2. apply hundredths_range. split.
  - apply round_half_even_lower. change (inject_Z 0) with 0. lra.
  - apply round_half_even_upper. change (inject_Z 10000) with 10000. lra.
Qed.

Lemma np_round2_range x : 0 <= x <= 100 -> 0 <= np_round2 x <= 100.
Proof.
  intros [H0 H1]. unfold np_round2, div, mul. apply hundredths_range. split.
  - apply round_half_even_lower. change (inject_Z 0) with 0. apply fl_nonneg. lra.
  - apply round_half_even_upper. change (inject_Z 10000) with 10000.
    apply fl_le; [lra | lra | exact representable_10000].
Qed.

(** The hundredths that [round2] and [np_round2] settle on. *)
Definition hundredths2 (x : Q) : Z := round_half_even (x * 100).
Definition np_hundredths2 (x : Q) : Z := round_half_even (fl (x * 100)).

Lemma round2_hundredths x : round2 x = fl (inject_Z (hundredths2 x) / 100).
Proof. reflexivity. Qed.

Lemma np_round2_hundredths x : np_round2 x = fl (inject_Z (np_hundredths2 x) / 100).
Proof. reflexivity. Qed.

(** Two numbers that are close round to hundredths one apart at most. *)
Lemma round_half_even_close x y :
  x - (1 # 2) <= y <= x + (1 # 2) ->
  (round_half_even x - 1 <= round_half_even y <= round_half_even x + 1)%Z.
Proof.
  intros [Hl Hu].
  pose proof (round_half_even_near x) as [Xl Xu].
  pose proof (round_half_even_near y) as [Yl Yu].
  assert (A : inject_Z (round_half_even y) < inject_Z (round_half_even x + 2)).
  { rewrite inject_Z_plus. change (inject_Z 2) with 2. lra. }
  assert (B : inject_Z (round_half_even x) < inject_Z (round_half_even y + 2)).
  { rewrite inject_Z_plus. change (inject_Z 2) with 2. lra. }
  rewrite <- Zlt_Qlt in A, B. lia.
Qed.

End Round2Facts.

(** ** The skill matcher *)

Module MatchFacts.

Lemma len_ratio_range {A B} (a : list A) (b : list B) :
  (List.length a <= List.length b)%nat -> b <> [] -> 0 <= len_ratio a b <= 1.
Proof.
  intros Hle Hb. unfold len_ratio. apply FloatFacts.div_range.
  - change 0 with (inject_Z 0). rewrite <- Zle_Qle. lia.
  - rewrite <- Zle_Qle. lia.
  - change 0 with (inject_Z 0). rewrite <- Zlt_Qlt. destruct b; [congruence | simpl; lia].
Qed.

Lemma found_list_length skills cv_clean :
  (List.length (found_list skills cv_clean) <= List.length skills)%nat.
Proof.
  unfold found_list. destruct (_ && _); [apply List.filter_length_le | simpl; lia].
Qed.

Lemma skills_fraction_range skills cv_clean :
  0 <= skills_fraction skills (found_list skills cv_clean) <= 1.
Proof.
  unfold skills_fraction. destruct skills as [| s rest]; simpl negb; cbv iota.
  - lra.
  - apply len_ratio_range; [apply found_list_length | discriminate].
Qed.

Lemma found_list_incl skills cv_clean t :
  In t (found_list skills cv_clean) ->
  In t skills /\ Re.search_word t cv_clean = true.
Proof.
  unfold found_list. destruct (_ && _); [| intros []].
  intros H. now apply List.filter_In in H.
Qed.

Lemma found_list_count skills cv_clean t :
  In t (found_list skills cv_clean) ->
  count_occ string_dec (found_list skills cv_clean) t = count_occ string_dec skills t.
Proof.
  intros H. destruct (found_list_incl _ _ _ H) as [_ Hs]. revert H.
  unfold found_list. destruct (_ && _); [intros _ | intros []].
  induction skills as [| s rest IH]; [reflexivity |]. simpl.
  destruct (string_dec s t) as [-> | Hne].
  - rewrite Hs. simpl. destruct (string_dec t t); [| congruence]. now rewrite IH.
  - destruct (Re.search_word s cv_clean); simpl; [| exact IH].
    destruct (string_dec s t); [congruence | exact IH].
Qed.

(** [found] and [missing] split the set of the required tokens. *)
Lemma found_missing_partition skills cv_clean :
  let found : gset string := list_to_set (found_list skills cv_clean) in
  let missing := missing_set skills (found_list skills cv_clean) in
  found ## missing /\ found ∪ missing = list_to_set skills.
Proof.
  simpl. unfold missing_set. split.
  { intros t Hf Hm. apply elem_of_difference in Hm as [_ Hm]. now apply Hm. }
  apply set_eq. intros t. rewrite elem_of_union, elem_of_difference, !elem_of_list_to_set.
  split.
  - intros [H | [H _]]; [| exact H].
    apply list_elem_of_In in H. apply list_elem_of_In. now apply found_list_incl in H.
  - intros H. destruct (decide (t ∈ found_list skills cv_clean)); [now left | now right].
Qed.

Lemma missing_list_NoDup skills found : NoDup (missing_list skills found).
Proof. apply NoDup_elements. Qed.


End MatchFacts.

(** ** The whole-word search *)

Module ReFacts.
Import Re.






End ReFacts.

Lemma or_empty_id (s : string) : (if Str.is_empty s then "" else s) = s.
Proof. now destruct s. Qed.

(** A stand-in for the vectorizer, to run the scorer on examples: equal
    cleaned texts are fully similar, others half. *)
Definition sample_cosine (jd_clean cv_clean : string) : option Q :=
  if String.eqb jd_clean cv_clean then Some 1 else Some (1 # 2).

Lemma sample_cosine_range jd cv q : sample_cosine jd cv = Some q -> 0 <= q <= 1.
Proof.
  unfold sample_cosine. destruct (String.eqb jd cv); intros [= <-]; split; discriminate.
Qed.

(** ** The composite score *)

Module WeightFacts.
Import Float RoundFacts FloatFacts Round2Facts.
(** [(skills_match * 0.6 + jd_match * 0.4) * 100] *)
Local Abbreviation weighted s j := (mul (add (mul s lit_0_6) (mul j lit_0_4)) 100).

Lemma weighted_range s j : 0 <= s <= 1 -> 0 <= j <= 1 -> 0 <= weighted s j <= 100.
Proof.
  intros Hs Hj.
  pose proof (mul_range s lit_0_6 Hs (proj1 lit_0_6_range) representable_lit_0_6) as [A0 A1].
  pose proof (mul_range j lit_0_4 Hj (proj1 lit_0_4_range) representable_lit_0_4) as [B0 B1].
  pose proof lit_sum as Hsum.
  assert (S : 0 <= add (mul s lit_0_6) (mul j lit_0_4) <= 1).
  { unfold add. split; [apply fl_nonneg; lra |].
    apply fl_le; [lra | lra | exact representable_1]. }
  unfold mul at 1. destruct S as [S0 S1]. split; [apply fl_nonneg; lra |].
  apply fl_le; [lra | lra | exact representable_100].
Qed.

Lemma mul_near a b c :
  0 <= a * b -> a * b <= c ->
  a * b - pow2 (exponent (Qred c)) * (1 # 2) <= mul a b
  /\ mul a b <= a * b + pow2 (exponent (Qred c)) * (1 # 2).
Proof. intros H0 H1. exact (fl_near_below (a * b) c H0 H1). Qed.

Lemma add_near a b c :
  0 <= a + b -> a + b <= c ->
  a + b - pow2 (exponent (Qred c)) * (1 # 2) <= add a b
  /\ add a b <= a + b + pow2 (exponent (Qred c)) * (1 # 2).
Proof. intros H0 H1. exact (fl_near_below (a + b) c H0 H1). Qed.

(** The rounding errors of the four operations add up to less than 2^-43. *)
Lemma weighted_near s j :
  0 <= s <= 1 -> 0 <= j <= 1 ->
  s * 60 + j * 40 - (1 # 8796093022208) <= weighted s j
  /\ weighted s j <= s * 60 + j * 40 + (1 # 8796093022208).
Proof.
  intros Hs Hj.
  pose proof (mul_range s lit_0_6 Hs (proj1 lit_0_6_range) representable_lit_0_6) as [A0 A1].
  pose proof (mul_range j lit_0_4 Hj (proj1 lit_0_4_range) representable_lit_0_4) as [B0 B1].
  pose proof lit_0_6_range as L6. pose proof lit_0_4_range as L4. pose proof lit_sum as Hsum.
  assert (S : 0 <= add (mul s lit_0_6) (mul j lit_0_4) <= 1).
  { unfold add at 1 2. split; [apply fl_nonneg; lra |].
    apply fl_le; [lra | lra | exact representable_1]. }
  pose proof (mul_near s lit_0_6 1 ltac:(nra) ltac:(nra)) as Ea.
  pose proof (mul_near j lit_0_4 1 ltac:(nra) ltac:(nra)) as Eb.
  pose proof (add_near (mul s lit_0_6) (mul j lit_0_4) 1 ltac:(lra) ltac:(lra)) as Es.
  pose proof (mul_near (add (mul s lit_0_6) (mul j lit_0_4)) 100 100 ltac:(lra) ltac:(lra))
    as Et.
  rewrite ulp_1 in Ea, Eb, Es. rewrite ulp_100 in Et.
  clear A0 A1 B0 B1 S Hsum.
  set (a := mul s lit_0_6) in *. set (b := mul j lit_0_4) in *. set (c := add a b) in *.
  set (t := mul c 100) in *. clearbody a b c t.
  rewrite lit_0_6_value in Ea, L6. rewrite lit_0_4_value in Eb, L4.
  lra.
Qed.

End WeightFacts.

Section ScoreFacts.
Import Float RoundFacts FloatFacts Round2Facts WeightFacts.

Variable tfidf_cosine : string -> string -> option Q.

(** The cosine of two vectors with non-negative weights. *)
Hypothesis tfidf_cosine_range :
  forall jd_clean cv_clean q, tfidf_cosine jd_clean cv_clean = Some q -> 0 <= q <= 1.

Lemma jd_fraction_range jd_clean cv_clean :
  0 <= jd_fraction tfidf_cosine jd_clean cv_clean <= 1.
Proof using tfidf_cosine_range.
  unfold jd_fraction, jd_cosine. destruct (_ && _); [| lra].
  destruct (tfidf_cosine jd_clean cv_clean) eqn:E; [| lra].
  exact (tfidf_cosine_range _ _ _ E).
Qed.

Lemma round_jd_range jd_clean cv_clean x :
  0 <= x <= 100 -> 0 <= round_jd tfidf_cosine jd_clean cv_clean x <= 100.
Proof using Type.
  intros Hx. unfold round_jd.
  destruct (jd_cosine tfidf_cosine jd_clean cv_clean);
    [now apply np_round2_range | now apply round2_range].
Qed.

(** Either rounding of a number close to [y] settles within one hundredth
    of the hundredths of [y]. *)
Lemma round_jd_close jd_clean cv_clean x y :
  0 <= x <= 100 ->
  y - (1 # 8796093022208) <= x <= y + (1 # 8796093022208) ->
  exists k : Z,
    round_jd tfidf_cosine jd_clean cv_clean x = fl (inject_Z k / 100)
    /\ (round_half_even (y * 100) - 1 <= k <= round_half_even (y * 100) + 1)%Z.
Proof using Type.
  intros [H0 H1] [Hl Hu]. unfold round_jd.
  destruct (jd_cosine tfidf_cosine jd_clean cv_clean).
  - exists (np_hundredths2 x). split; [apply np_round2_hundredths |].
    unfold np_hundredths2. apply round_half_even_close.
    pose proof (mul_near x 100 10000 ltac:(lra) ltac:(lra)) as Hn.
    rewrite ulp_10000 in Hn. unfold mul in Hn. lra.
  - exists (hundredths2 x). split; [apply round2_hundredths |].
    unfold hundredths2. apply round_half_even_close. lra.
Qed.

(** C1, amended: [total_score] is the weighted sum
    [(s * 0.6 + j * 0.4) * 100] of the two fractions [s] and [j], computed
    in double precision and rounded to two decimals; [s] and [j] lie in
    [0,1] and are the fractions whose hundredfold, rounded to two decimals,
    are the sub-scores [skills_match] and [jd_match]. The result is the
    float nearest to [k/100], where [k] is the exact
    [round(100 * (s * 60 + j * 40))] or one more or one less. *)
Theorem total_score_weighted_sum_in_doubles cv_text job_description required_skills :
  let r := calculate_match tfidf_cosine cv_text job_description required_skills in
  let s := skills_fraction (skills_list required_skills) (found_of cv_text required_skills) in
  let j := jd_fraction tfidf_cosine (clean_text job_description) (clean_text cv_text) in
  let round_ := round_jd tfidf_cosine (clean_text job_description) (clean_text cv_text) in
  0 <= s <= 1 /\ 0 <= j <= 1
  /\ total_score r
     = round_ (Float.mul (Float.add (Float.mul s Float.lit_0_6) (Float.mul j Float.lit_0_4)) 100)
  /\ skills_match r = round2 (Float.mul s 100)
  /\ jd_match r = round_ (Float.mul j 100)
  /\ exists k : Z,
       total_score r = Float.fl (inject_Z k / 100)
       /\ (round_half_even ((s * 60 + j * 40) * 100) - 1 <= k
           <= round_half_even ((s * 60 + j * 40) * 100) + 1)%Z.
Proof using tfidf_cosine_range.
  cbv zeta. unfold calculate_match, found_of. rewrite !or_empty_id.
  cbn [total_score skills_match jd_match].
  pose proof (MatchFacts.skills_fraction_range (skills_list required_skills)
                (clean_text cv_text)) as Hs.
  pose proof (jd_fraction_range (clean_text job_description) (clean_text cv_text)) as Hj.
  split; [exact Hs |]. split; [exact Hj |].
  split; [reflexivity |]. split; [reflexivity |]. split; [reflexivity |].
  apply round_jd_close.
  - exact (weighted_range _ _ Hs Hj).
  - pose proof (weighted_near _ _ Hs Hj) as [Hl Hu]. split; lra.
Qed.

(** C3: the three scores lie between 0 and 100. *)
Theorem scores_within_0_100 cv_text job_description required_skills :
  let r := calculate_match tfidf_cosine cv_text job_description required_skills in
  0 <= total_score r <= 100 /\ 0 <= jd_match r <= 100 /\ 0 <= skills_match r <= 100.
Proof using tfidf_cosine_range.
  cbv zeta. unfold calculate_match. rewrite !or_empty_id.
  cbn [total_score skills_match jd_match].
  pose proof (MatchFacts.skills_fraction_range (skills_list required_skills)
                (clean_text cv_text)) as Hs.
  pose proof (jd_fraction_range (clean_text job_description) (clean_text cv_text)) as Hj.
  split; [apply round_jd_range; exact (weighted_range _ _ Hs Hj) |].
  split.
  - apply round_jd_range. exact (mul_range _ 100 Hj ltac:(discriminate) representable_100).
  - apply round2_range. exact (mul_range _ 100 Hs ltac:(discriminate) representable_100).
Qed.

End ScoreFacts.

(** Thirty-two required skills, seventeen of them in the text. *)
Definition skills_32 : string :=
  "python, sql, docker, java, linux, git, aws, azure, react, django, flask,
   pandas, numpy, spark, kafka, redis, kotlin, swift, rust, go, scala, ruby,
   php, perl, matlab, excel, tableau, jira, scrum, html, css, bash".
Definition text_17 : string :=
  "python sql docker java linux git aws azure react django flask pandas numpy spark kafka redis kotlin".

(** C1: with 17 of 32 skills found and an empty job description the code
    returns 31.87, and [round(s * 60 + j * 40, 2)] is 31.88, computed
    exactly or in double precision. *)
Lemma total_score_differs_from_round_of_exact_sum :
  let r := calculate_match sample_cosine text_17 "" skills_32 in
  let s := skills_fraction (skills_list skills_32) (found_of text_17 skills_32) in
  let j := jd_fraction sample_cosine (clean_text "") (clean_text text_17) in
  s = 17 # 32 /\ j = 0
  /\ total_score r = Float.fl (3187 # 100)
  /\ round2 (s * 60 + j * 40) = Float.fl (3188 # 100)
  /\ round2 (Float.add (Float.mul s 60) (Float.mul j 40)) = Float.fl (3188 # 100)
  /\ total_score r <> round2 (s * 60 + j * 40).
Proof.
  cbv zeta.
  assert (Hs : skills_fraction (skills_list skills_32) (found_of text_17 skills_32) = 17 # 32)
    by (vm_compute; reflexivity).
  assert (Hj : jd_fraction sample_cosine (clean_text "") (clean_text text_17) = 0)
    by (vm_compute; reflexivity).
  assert (Ht : total_score (calculate_match sample_cosine text_17 "" skills_32)
               = Float.fl (3187 # 100)) by (vm_compute; reflexivity).
  rewrite Hs, Hj, Ht.
  assert (Hc : round2 ((17 # 32) * 60 + 0 * 40) = Float.fl (3188 # 100))
    by (vm_compute; reflexivity).
  assert (Hf : round2 (Float.add (Float.mul (17 # 32) 60) (Float.mul 0 40))
               = Float.fl (3188 # 100)) by (vm_compute; reflexivity).
  rewrite Hc, Hf. repeat split. vm_compute. discriminate.
Qed.

Lemma total_score_weighted_sum_in_doubles_witness :
  (forall jd cv q, sample_cosine jd cv = Some q -> 0 <= q <= 1)
  /\ total_score (calculate_match sample_cosine "Senior Python developer" "python developer"
                    "Python, SQL")
     = np_round2
         (Float.mul (Float.add (Float.mul (1 # 2) Float.lit_0_6)
                       (Float.mul (1 # 2) Float.lit_0_4)) 100).
Proof.
  split; [exact sample_cosine_range |].
  destruct (total_score_weighted_sum_in_doubles sample_cosine sample_cosine_range
              "Senior Python developer" "python developer" "Python, SQL")
    as (_ & _ & H & _).
  rewrite H. vm_compute. reflexivity.
Defined.

Lemma scores_within_0_100_witness :
  (forall jd cv q, sample_cosine jd cv = Some q -> 0 <= q <= 1)
  /\ 0 <= total_score (calculate_match sample_cosine "sql and python" "data engineer"
                         "Python, SQL, Docker") <= 100.
Proof.
  split; [exact sample_cosine_range |].
  exact (proj1 (scores_within_0_100 sample_cosine sample_cosine_range
                  "sql and python" "data engineer" "Python, SQL, Docker")).
Defined.

(** C8: when the cleaned candidate text or the cleaned job description is
    empty or only whitespace, [jd_match] is 0. *)
Theorem jd_match_zero_on_blank_text tfidf_cosine cv_text job_description required_skills :
  Str.strip (clean_text cv_text) = "" \/ Str.strip (clean_text job_description) = "" ->
  jd_match (calculate_match tfidf_cosine cv_text job_description required_skills) = 0.
Proof.
  intros H. unfold calculate_match. rewrite !or_empty_id. cbn [jd_match].
  assert (E : jd_cosine tfidf_cosine (clean_text job_description) (clean_text cv_text) = None).
  { unfold jd_cosine. destruct H as [-> | ->]; simpl; [now rewrite andb_false_r | reflexivity]. }
  unfold round_jd, jd_fraction. rewrite E. vm_compute. reflexivity.
Qed.

Lemma jd_match_zero_on_blank_text_witness :
  (Str.strip (clean_text " ...  ") = "" \/ Str.strip (clean_text "python developer") = "")
  /\ jd_match (calculate_match sample_cosine " ...  " "python developer" "Python") = 0.
Proof.
  split; [left; reflexivity |].
  apply (jd_match_zero_on_blank_text sample_cosine " ...  " "python developer" "Python").
  left; reflexivity.
Defined.

(** ** The skill tokens as the specification describes them *)

(** The set of the normalized, non-empty tokens of a comma-separated
    string: split on commas, normalize each piece, drop the empty ones. *)
Definition required_tokens (required_skills : string) : gset string :=
  list_to_set
    (List.filter (fun token => negb (Str.is_empty token))
       (List.map normalize_skill (Str.split_on "," required_skills))).

(** A returned field read back as tokens: [', '.join(tokens)] is cut at
    every [", "], as [field.split(', ')] does. *)
Definition cons_head (c : ascii) (pieces : list string) : list string :=
  match pieces with
  | [] => [String c ""]
  | piece :: rest => String c piece :: rest
  end.

Fixpoint split_comma_space (s : string) : list string :=
  match s with
  | EmptyString => [EmptyString]
  | String c t =>
      match t with
      | String c' t' =>
          if Ascii.eqb c "," && Ascii.eqb c' " "
          then EmptyString :: split_comma_space t'
          else cons_head c (split_comma_space t)
      | EmptyString => cons_head c (split_comma_space t)
      end
  end.

(** The set of tokens that a returned field lists; the empty field lists
    none. *)
Definition field_tokens (field : string) : gset string :=
  if Str.is_empty field then ∅ else list_to_set (split_comma_space field).

Module FieldFacts.

Definition comma_free (s : string) : bool :=
  Str.sforall (fun c => negb (Ascii.eqb c ",")) s.

Lemma split_comma_free s : comma_free s = true -> split_comma_space s = [s].
Proof.
  induction s as [| c t IH]; [reflexivity |].
  unfold comma_free. cbn [Str.sforall]. intros H. apply andb_prop in H as [Hc Ht].
  specialize (IH Ht). cbn [split_comma_space].
  destruct t as [| c' t'].
  - reflexivity.
  - rewrite IH. apply negb_true_iff in Hc. rewrite Hc. reflexivity.
Qed.

Lemma split_comma_space_app s rest :
  comma_free s = true ->
  split_comma_space (s ++ ", " ++ rest) = s :: split_comma_space rest.
Proof.
  induction s as [| c t IH]; [reflexivity |].
  unfold comma_free. cbn [Str.sforall]. intros H. apply andb_prop in H as [Hc Ht].
  specialize (IH Ht). apply negb_true_iff in Hc.
  change (String c t ++ ", " ++ rest) with (String c (t ++ ", " ++ rest)).
  cbn [split_comma_space]. rewrite Hc. cbn [andb].
  destruct (t ++ ", " ++ rest) as [| c' t'] eqn:E.
  - destruct t; discriminate E.
  - rewrite IH. reflexivity.
Qed.

(** Reading a field back gives the tokens it was joined from, when there
    is at least one and none holds a comma. *)
Lemma split_comma_space_join tokens :
  tokens <> [] -> List.Forall (fun token => comma_free token = true) tokens ->
  split_comma_space (Str.join ", " tokens) = tokens.
Proof.
  induction tokens as [| token rest IH]; [congruence |].
  intros _ H. apply List.Forall_cons_iff in H as [Ht Hrest].
  destruct rest as [| next rest'].
  - now apply split_comma_free.
  - change (Str.join ", " (token :: next :: rest'))
      with (token ++ ", " ++ Str.join ", " (next :: rest')).
    rewrite split_comma_space_app by exact Ht. f_equal. now apply IH.
Qed.

End FieldFacts.

(** When no piece of the required-skills string is left after trimming,
    the skill score is 0 and nothing is found or missing. *)
Lemma no_skill_entries_score_zero tfidf_cosine cv_text job_description required_skills :
  skills_list required_skills = [] ->
  let r := calculate_match tfidf_cosine cv_text job_description required_skills in
  skills_match r = 0 /\ found_skills r = "" /\ missing_skills r = "".
Proof.
  intros E. cbv zeta. unfold calculate_match. rewrite E.
  cbn [skills_match found_skills missing_skills].
  split; [vm_compute; reflexivity |]. split; reflexivity.
Qed.

(** C7, at the required-skills string ["..."]: its only entry normalizes
    to the empty token, so it yields no non-empty token; the empty token
    is kept in the list, the pattern [\b\b] matches at the first word
    boundary of the text, and the skill score is 100. *)
Theorem punctuation_only_requirement_scores_100 tfidf_cosine job_description :
  required_tokens "..." = ∅
  /\ skills_list "..." = [""]
  /\ found_of "a" "..." = [""]
  /\ skills_match (calculate_match tfidf_cosine "a" job_description "...") = 100.
Proof.
  split; [vm_compute; reflexivity |]. split; [vm_compute; reflexivity |].
  split; [vm_compute; reflexivity |].
  unfold calculate_match. cbn [skills_match]. vm_compute. reflexivity.
Qed.

(** C2, at the text ["x"] and the required skills ["..., x"]: the returned
    [found_skills] is [", x"], which lists the empty token before [x]; the
    empty token is not among the normalized non-empty tokens of the
    string, so the two returned fields together do not list that set. *)
Theorem punctuation_only_token_is_found tfidf_cosine job_description :
  let r := calculate_match tfidf_cosine "x" job_description "..., x" in
  found_skills r = ", x"
  /\ found_skills r = Str.join ", " [""; "x"]
  /\ missing_skills r = ""
  /\ required_tokens "..., x" = {[ "x" ]}
  /\ field_tokens (found_skills r) = {[ ""; "x" ]}
  /\ field_tokens (found_skills r) ∪ field_tokens (missing_skills r)
     <> required_tokens "..., x".
Proof.
  cbv zeta.
  assert (F : found_skills (calculate_match tfidf_cosine "x" job_description "..., x")
              = ", x").
  { unfold calculate_match. cbn [found_skills]. vm_compute. reflexivity. }
  assert (M : missing_skills (calculate_match tfidf_cosine "x" job_description "..., x")
              = "").
  { unfold calculate_match. cbn [missing_skills]. vm_compute. reflexivity. }
  assert (T : required_tokens "..., x" = {[ "x" ]}) by (vm_compute; reflexivity).
  assert (V : field_tokens ", x" = {[ ""; "x" ]}) by (vm_compute; reflexivity).
  rewrite F, M, T, V.
  repeat split; try reflexivity.
  intros E.
  assert (H : "" ∈ ({[ ""; "x" ]} ∪ field_tokens "" : gset string)) by set_solver.
  rewrite E in H. apply elem_of_singleton in H. discriminate H.
Qed.

(** C5: a duplicated required skill that the text contains is listed twice
    in [found_skills]. *)
Lemma found_skills_keeps_duplicates :
  found_skills (calculate_match sample_cosine "python" "" "Python, python")
  = "python, python"
  /\ ~ NoDup (found_of "python" "Python, python").
Proof.
  split; [vm_compute; reflexivity |].
  change (found_of "python" "Python, python") with ["python"; "python"].
  intros H. apply NoDup_cons in H as [H _]. apply H, list_elem_of_here.
Qed.

(** C5, amended: [missing_skills] is the comma-joined list of the missing
    tokens, each once; [found_skills] is the comma-joined list of the found
    tokens, each as many times as it occurs among the required skills. *)
Theorem missing_skills_once_found_skills_repeated
    tfidf_cosine cv_text job_description required_skills :
  let r := calculate_match tfidf_cosine cv_text job_description required_skills in
  missing_skills r = Str.join ", " (missing_of cv_text required_skills)
  /\ NoDup (missing_of cv_text required_skills)
  /\ found_skills r = Str.join ", " (found_of cv_text required_skills)
  /\ (forall token, token ∈ found_of cv_text required_skills ->
        count_occ string_dec (found_of cv_text required_skills) token
        = count_occ string_dec (skills_list required_skills) token).
Proof.
  cbv zeta. unfold calculate_match, missing_of, found_of. rewrite !or_empty_id.
  cbn [missing_skills found_skills].
  split; [reflexivity |]. split; [apply MatchFacts.missing_list_NoDup |].
  split; [reflexivity |].
  intros token H. apply MatchFacts.found_list_count. now apply list_elem_of_In.
Qed.



(** ** Ranking *)

Module RankFacts.

(** [a] may stand before [b] in a descending ranking. *)
Definition desc (a b : Candidate) : Prop := score b <= score a.

(** The candidates of [l] with score [v], in the order of [l]. *)
Definition with_score (v : Q) (l : list Candidate) : list Candidate :=
  List.filter (fun c => Qeq_bool (score c) v) l.

Lemma insert_desc_perm c l : Permutation (insert_desc c l) (c :: l).
Proof.
  induction l as [| x rest IH]; simpl; [reflexivity |].
  destruct (Qle_bool (score x) (score c)); [reflexivity |].
  rewrite IH. apply perm_swap.
Qed.

Lemma rank_perm l : Permutation (rank l) l.
Proof.
  induction l as [| c rest IH]; simpl; [reflexivity |].
  rewrite insert_desc_perm. now apply perm_skip.
Qed.

Lemma insert_desc_sorted c l :
  StronglySorted desc l -> StronglySorted desc (insert_desc c l).
Proof.
  induction 1 as [| x rest Hs IH Hx]; simpl.
  - constructor; constructor.
  - destruct (Qle_bool (score x) (score c)) eqn:E.
    + apply Qle_bool_iff in E. constructor; [now constructor |].
      constructor; [exact E |].
      eapply List.Forall_impl; [| exact Hx]. unfold desc. intros y Hy. simpl in Hy. lra.
    + assert (Hlt : score c < score x).
      { apply Qnot_le_lt. intros H. apply Qle_bool_iff in H. congruence. }
      constructor; [exact IH |].
      rewrite (insert_desc_perm c rest). constructor; [| exact Hx].
      unfold desc. lra.
Qed.

Lemma rank_sorted l : StronglySorted desc (rank l).
Proof.
  induction l as [| c rest IH]; simpl; [constructor | now apply insert_desc_sorted].
Qed.

Lemma insert_desc_stable v c l :
  with_score v (insert_desc c l) = with_score v (c :: l).
Proof.
  unfold with_score. induction l as [| x rest IH]; [reflexivity |].
  cbn [insert_desc]. destruct (Qle_bool (score x) (score c)) eqn:E; [reflexivity |].
  cbn [List.filter] in *. rewrite IH.
  destruct (Qeq_bool (score c) v) eqn:Ec; [| reflexivity].
  destruct (Qeq_bool (score x) v) eqn:Ex; [| reflexivity].
  apply Qeq_bool_iff in Ec, Ex.
  assert (H : Qle_bool (score x) (score c) = true) by (apply Qle_bool_iff; lra).
  congruence.
Qed.

Lemma rank_stable v l : with_score v (rank l) = with_score v l.
Proof.
  induction l as [| c rest IH]; [reflexivity |].
  cbn [rank]. rewrite insert_desc_stable. unfold with_score in *. cbn [List.filter].
  now rewrite IH.
Qed.

Lemma with_score_self c l : with_score (score c) (c :: l) = c :: with_score (score c) l.
Proof.
  unfold with_score. cbn [List.filter].
  assert (E : Qeq_bool (score c) (score c) = true) by (apply Qeq_bool_iff; reflexivity).
  now rewrite E.
Qed.

Lemma with_score_In v c l : In c (with_score v l) -> In c l.
Proof. unfold with_score. intros H. now apply List.filter_In in H. Qed.

Lemma head_is_top x rest c :
  StronglySorted desc (x :: rest) -> In c (x :: rest) -> score c <= score x.
Proof.
  intros Hs [<- | Hc]; [lra |].
  apply StronglySorted_inv in Hs as [_ Hx].
  exact (proj1 (List.Forall_forall _ _) Hx c Hc).
Qed.

(** Two descending lists with the same candidates of every score, in the
    same order, are the same list. *)
Lemma sorted_stable_unique l1 :
  forall l2,
    StronglySorted desc l1 -> StronglySorted desc l2 ->
    (forall v, with_score v l1 = with_score v l2) -> l1 = l2.
Proof.
  induction l1 as [| x r1 IH]; intros [| y r2] S1 S2 E.
  - reflexivity.
  - specialize (E (score y)). rewrite with_score_self in E. discriminate.
  - specialize (E (score x)). rewrite with_score_self in E. discriminate.
  - assert (Hyx : score y <= score x).
    { apply (head_is_top x r1 y S1), (with_score_In (score y)).
      rewrite (E (score y)), with_score_self. now left. }
    assert (Hxy : score x <= score y).
    { apply (head_is_top y r2 x S2), (with_score_In (score x)).
      rewrite <- (E (score x)), with_score_self. now left. }
    assert (Exy : Qeq_bool (score y) (score x) = true) by (apply Qeq_bool_iff; lra).
    assert (Hhead : x = y).
    { pose proof (E (score x)) as H. rewrite with_score_self in H.
      unfold with_score in H. cbn [List.filter] in H. rewrite Exy in H. congruence. }
    subst y. f_equal.
    apply IH; [now apply StronglySorted_inv in S1 | now apply StronglySorted_inv in S2 |].
    intros v. specialize (E v). unfold with_score in *. cbn [List.filter] in E.
    destruct (Qeq_bool (score x) v); congruence.
Qed.

(** Whatever stable sort [list.sort] runs, its outcome is [rank]. *)
Lemma rank_unique l sorted :
  StronglySorted desc sorted ->
  (forall v, with_score v sorted = with_score v l) ->
  sorted = rank l.
Proof.
  intros S E. apply sorted_stable_unique; [exact S | apply rank_sorted |].
  intros v. now rewrite rank_stable.
Qed.

Lemma rank_nil_iff l : rank l = [] <-> l = [].
Proof.
  split; [| now intros ->].
  intros E. pose proof (rank_perm l) as P. rewrite E in P.
  now apply Permutation_nil in P.
Qed.

Definition scored (name : string) (v : Q) : Candidate :=
  {| filename := name;
     analysis := {| total_score := v; jd_match := 0; skills_match := 0;
                    missing_skills := ""; found_skills := "" |};
     cv_preview := "" |}.

(** The scores 40, 90, 90, 10: the two candidates with 90 keep their
    order. *)
Example rank_example :
  List.map filename
    (rank [scored "a" 40; scored "b" 90; scored "c" 90; scored "d" 10])
  = ["b"; "c"; "a"; "d"].
Proof. reflexivity. Qed.

End RankFacts.

(** C4: ranking rearranges the batch into non-increasing order of
    [total_score]; candidates with equal [total_score] keep their relative
    order; the best candidate is the head of the ranked list and is absent
    exactly when the batch is empty. [analyze_cvs] renders the results with
    this ranking and its head whenever a candidate was scored, and no
    results otherwise. *)
Theorem rank_descending_stable_best (batch : list Candidate) :
  Permutation (rank batch) batch
  /\ StronglySorted (fun a b => score b <= score a) (rank batch)
  /\ (forall v, List.filter (fun c => Qeq_bool (score c) v) (rank batch)
                = List.filter (fun c => Qeq_bool (score c) v) batch)
  /\ best_candidate (rank batch) = List.head (rank batch)
  /\ (best_candidate (rank batch) = None <-> batch = [])
  /\ (forall c, In c batch ->
        exists best, best_candidate (rank batch) = Some best /\ score c <= score best)
  /\ (forall tfidf_cosine magic_mime pdfminer_extract_text docx_paragraphs secure_filename
             job d files,
        let b := process_uploads tfidf_cosine magic_mime pdfminer_extract_text
                   docx_paragraphs secure_filename job
                   {| candidates := []; flashes := []; folder := d |} files in
        analyze_cvs tfidf_cosine magic_mime pdfminer_extract_text docx_paragraphs
          secure_filename job d files
        = if negb (is_nil (candidates b))
          then AnalysisResults (rank (candidates b)) (List.head (rank (candidates b)))
                 (flashes b)
          else AnalyzeForm
                 (flashes b
                  ++ [("No valid CVs processed. Please upload PDF or DOCX files.",
                       "error")])).
Proof.
  split; [apply RankFacts.rank_perm |].
  split; [apply RankFacts.rank_sorted |].
  split; [intros v; apply RankFacts.rank_stable |].
  split; [reflexivity |].
  split.
  { unfold best_candidate. rewrite <- RankFacts.rank_nil_iff.
    destruct (rank batch); simpl; split; congruence. }
  split; [| reflexivity].
  intros c Hc. unfold best_candidate.
  pose proof (RankFacts.rank_sorted batch) as S.
  assert (Hr : In c (rank batch)).
  { eapply Permutation_in; [apply Permutation_sym, RankFacts.rank_perm | exact Hc]. }
  destruct (rank batch) as [| x rest]; [destruct Hr |].
  exists x. split; [reflexivity |]. exact (RankFacts.head_is_top x rest c S Hr).
Qed.

(** ** Text extraction and the upload loop *)

Section ExtractFacts.

Variable magic_mime : string -> string.
Variable pdfminer_extract_text : string -> result string.
Variable docx_paragraphs : string -> result (list string).

Let extract := extract_text_from_file magic_mime pdfminer_extract_text docx_paragraphs.

(** The file is on the disk and python-magic takes it for neither a PDF
    nor a Word document. *)
Definition unrecognized (d : disk) (path bytes : string) : Prop :=
  d !! path = Some bytes
  /\ String.eqb (magic_mime bytes) mime_pdf = false
  /\ String.eqb (magic_mime bytes) mime_docx = false.

(** With an extension other than [pdf] and [docx], the error names the
    type that was detected. *)
Lemma unsupported_type_reported d path bytes stem ext :
  unrecognized d path bytes ->
  rsplit_last "." path = Some (stem, ext) ->
  String.eqb (Str.lower ext) "pdf" = false ->
  String.eqb (Str.lower ext) "docx" = false ->
  extract d path
  = raise (Exception ("File processing error: Unsupported file type: " ++ magic_mime bytes)).
Proof using Type.
  intros (Hd & Hp & Hx) Hs Ep Ed.
  unfold extract, extract_text_from_file, read_file, rsplit1, index.
  rewrite Hd. simpl. rewrite Hp, Hx, Hs. simpl. rewrite Ep, Ed. reflexivity.
Qed.

(** Without any dot in the path, [rsplit] gives a single piece and the
    index [1] is out of range. *)
Lemma extensionless_index_error d path bytes :
  unrecognized d path bytes ->
  rsplit_last "." path = None ->
  extract d path = raise (Exception "File processing error: list index out of range").
Proof using Type.
  intros (Hd & Hp & Hx) Hs.
  unfold extract, extract_text_from_file, read_file, rsplit1, index.
  rewrite Hd. simpl. rewrite Hp, Hx, Hs. reflexivity.
Qed.

(** The message of an unsupported type is not the message of a failed
    extraction. *)
Lemma unsupported_is_not_extraction_failure file_type cause :
  "Unsupported file type: " ++ file_type <> "Failed to extract PDF text: " ++ cause
  /\ "Unsupported file type: " ++ file_type <> "Failed to extract DOCX text: " ++ cause.
Proof using Type. split; discriminate. Qed.

Variable tfidf_cosine : string -> string -> option Q.
Variable secure_filename : string -> string.

Let process := process_upload tfidf_cosine magic_mime pdfminer_extract_text docx_paragraphs
                 secure_filename.

(** A file whose extraction raises is flashed and leaves the candidates as
    they were; its copy in the upload folder is removed; the loop goes on
    with the files that follow. *)
Lemma failed_upload_is_flashed job b file e :
  Str.is_empty (upload_filename file) = false ->
  allowed_file (upload_filename file) = true ->
  let filepath := UPLOAD_FOLDER ++ "/" ++ secure_filename (upload_filename file) in
  extract (<[filepath := upload_bytes file]> (folder b)) filepath = raise e ->
  process job b file
  = {| candidates := candidates b;
       flashes := flashes b
                  ++ [("Error processing " ++ upload_filename file ++ ": " ++ exn_str e,
                       "error")];
       folder := delete filepath (folder b) |}.
Proof using Type.
  intros Hn Ha filepath He. unfold process, process_upload. rewrite Hn, Ha. simpl andb. cbv iota.
  fold filepath. unfold extract in He. rewrite He. simpl. f_equal.
  apply delete_insert_eq.
Qed.

Lemma process_uploads_cons job b file files :
  process_uploads tfidf_cosine magic_mime pdfminer_extract_text docx_paragraphs
    secure_filename job b (file :: files)
  = process_uploads tfidf_cosine magic_mime pdfminer_extract_text docx_paragraphs
      secure_filename job (process job b file) files.
Proof using Type. reflexivity. Qed.

End ExtractFacts.

(** C9, at the path ["uploads/pdf"] (the upload [".pdf"] once
    [secure_filename] has taken its leading dot): the content is plain
    text and the path has no extension, yet the error that comes out says
    nothing of an unsupported type nor of the type detected. *)
Theorem extensionless_file_index_error pdfminer_extract_text docx_paragraphs :
  allowed_file ".pdf" = true
  /\ rsplit1 "." "uploads/pdf" = ["uploads/pdf"]
  /\ extract_text_from_file (fun _ => "text/plain") pdfminer_extract_text docx_paragraphs
       {[ "uploads/pdf" := "plain text" ]} "uploads/pdf"
     = raise (Exception "File processing error: list index out of range").
Proof.
  split; [reflexivity |]. split; [reflexivity |].
  apply (extensionless_index_error _ _ _ _ _ "plain text"); [| reflexivity].
  split; [apply lookup_singleton_eq | split; reflexivity].
Qed.

(** * Further properties of the code *)

(** ** What the whole-word search finds *)

Module SearchFacts.
Import Re.

Lemma append_nil_l (s : string) : "" ++ s = s.
Proof. reflexivity. Qed.

Lemma append_cons c (s t : string) : String c s ++ t = String c (s ++ t).
Proof. reflexivity. Qed.

Ltac norm_append := repeat first [rewrite append_cons in * | rewrite append_nil_l in *].

Lemma after_literal_app lit s rest : after_literal lit s = Some rest <-> s = lit ++ rest.
Proof.
  revert s. induction lit as [| a lit IH]; intros s; norm_append; simpl.
  - split; congruence.
  - destruct s as [| b s]; [split; discriminate |].
    destruct (Ascii.eqb_spec a b) as [-> | Hne].
    + rewrite IH. split; congruence.
    + split; [discriminate | congruence].
Qed.

Lemma last_or_app prev a b : last_or prev (a ++ b) = last_or (last_or prev a) b.
Proof.
  revert prev. induction a as [| c a IH]; intros prev; norm_append; simpl;
    [reflexivity | apply IH].
Qed.

Lemma search_from_found prev lit s :
  search_from prev lit s = true ->
  exists pre post,
    s = pre ++ lit ++ post
    /\ boundary (last_or prev pre) (head (lit ++ post)) = true
    /\ boundary (last_or prev (pre ++ lit)) (head post) = true.
Proof.
  revert prev. induction s as [| c t IH]; intros prev H; simpl in H;
    apply orb_prop in H as [H | H].
  - unfold match_here in H. apply andb_prop in H as [H1 H2].
    destruct (after_literal lit "") as [rest |] eqn:E; [| discriminate].
    apply after_literal_app in E. exists "", rest. norm_append. simpl. now rewrite <- E.
  - discriminate.
  - unfold match_here in H. apply andb_prop in H as [H1 H2].
    destruct (after_literal lit (String c t)) as [rest |] eqn:E; [| discriminate].
    apply after_literal_app in E. exists "", rest. norm_append. simpl. now rewrite <- E.
  - destruct (IH _ H) as (pre & post & -> & B1 & B2).
    exists (String c pre), post. norm_append. simpl. auto.
Qed.

Lemma search_from_finds prev lit pre post :
  boundary (last_or prev pre) (head (lit ++ post)) = true ->
  boundary (last_or prev (pre ++ lit)) (head post) = true ->
  search_from prev lit (pre ++ lit ++ post) = true.
Proof.
  revert prev. induction pre as [| c pre IH]; intros prev B1 B2.
  - norm_append. simpl in *. assert (M : match_here prev lit (lit ++ post) = true).
    { unfold match_here. rewrite B1.
      now rewrite (proj2 (after_literal_app lit (lit ++ post) post) eq_refl). }
    destruct (lit ++ post); simpl; now rewrite M.
  - norm_append. simpl in *. rewrite (IH (Some c) B1 B2). apply orb_true_r.
Qed.

End SearchFacts.

(** X1: [re.search(rf'\b{re.escape(skill)}\b', cv_clean)] succeeds exactly
    when the text is [pre ++ skill ++ post] with a word boundary before
    the skill and a word boundary after it. *)
Theorem search_word_iff_bounded_occurrence (skill text : string) :
  Re.search_word skill text = true
  <-> exists pre post,
        text = pre ++ skill ++ post
        /\ Re.boundary (Re.last_or None pre) (Re.head (skill ++ post)) = true
        /\ Re.boundary (Re.last_or None (pre ++ skill)) (Re.head post) = true.
Proof.
  split.
  - apply SearchFacts.search_from_found.
  - intros (pre & post & -> & B1 & B2). now apply SearchFacts.search_from_finds.
Qed.

(** A skill that is found occurs in the text, and a skill that is only
    part of a longer word is not found. *)
Example search_word_examples :
  Re.search_word "java" "knows java and sql" = true
  /\ Re.search_word "java" "knows javascript" = false
  /\ Re.search_word "machine learning" "does machine learning daily" = true
  /\ Re.search_word "c" "c  developer" = true.
Proof. repeat split; vm_compute; reflexivity. Qed.

(** ** Letter case *)

Module CaseFacts.
Import Str.

Lemma comma_lower c : Ascii.eqb (Char.lower c) "," = Ascii.eqb c ",".
Proof. CharFacts.all_chars c. Qed.

Lemma split_on_lower s : split_on "," (lower s) = List.map lower (split_on "," s).
Proof.
  unfold lower. induction s as [| c t IH]; [reflexivity |]. simpl.
  rewrite comma_lower, IH. destruct (Ascii.eqb c ","); [reflexivity |].
  now destruct (split_on "," t).
Qed.

Lemma lstrip_lower s : lstrip (lower s) = lower (lstrip s).
Proof.
  unfold lower. induction s as [| c t IH]; [reflexivity |]. simpl.
  rewrite CharFacts.is_space_lower. now destruct (Char.is_space c).
Qed.

Lemma is_empty_lower s : is_empty (lower s) = is_empty s.
Proof. now destruct s. Qed.

Lemma rstrip_lower s : rstrip (lower s) = lower (rstrip s).
Proof.
  unfold lower. induction s as [| c t IH]; [reflexivity |]. simpl.
  rewrite CharFacts.is_space_lower, IH.
  change (smap Char.lower (rstrip t)) with (lower (rstrip t)). rewrite is_empty_lower.
  now destruct (Char.is_space c && is_empty (rstrip t)).
Qed.

Lemma strip_lower s : strip (lower s) = lower (strip s).
Proof. unfold strip. now rewrite lstrip_lower, rstrip_lower. Qed.

Lemma skills_list_lower required_skills :
  skills_list (lower required_skills) = skills_list required_skills.
Proof.
  unfold skills_list. rewrite split_on_lower.
  induction (split_on "," required_skills) as [| piece rest IH]; [reflexivity |].
  simpl. rewrite strip_lower, is_empty_lower.
  destruct (is_empty (strip piece)); simpl; [exact IH |].
  now rewrite IH, strip_lower, NormalizeFacts.normalize_lower.
Qed.

Lemma clean_text_lower text : clean_text (lower text) = clean_text text.
Proof. unfold clean_text. now rewrite StrFacts.lower_idempotent. Qed.

End CaseFacts.

(** X2: the scorer does not see letter case: lower-casing the candidate
    text, the job description and the required skills changes nothing in
    the result. *)
Theorem calculate_match_ignores_case tfidf_cosine cv_text job_description required_skills :
  calculate_match tfidf_cosine (Str.lower cv_text) (Str.lower job_description)
    (Str.lower required_skills)
  = calculate_match tfidf_cosine cv_text job_description required_skills.
Proof.
  unfold calculate_match. rewrite !or_empty_id.
  now rewrite !CaseFacts.clean_text_lower, CaseFacts.skills_list_lower.
Qed.

(** ** Rounding keeps the order *)

Module MonoFacts.
Import Float RoundFacts FloatFacts Round2Facts.

Lemma round_half_even_mono x y : x <= y -> (round_half_even x <= round_half_even y)%Z.
Proof.
  intros Hxy. pose proof (Qfloor_resp_le _ _ Hxy) as Hf.
  destruct (Z.eq_dec (Qfloor x) (Qfloor y)) as [E | E].
  - unfold round_half_even. rewrite E.
    destruct (Qcompare_spec (x - inject_Z (Qfloor y)) (1 # 2)) as [Cx | Cx | Cx];
      destruct (Qcompare_spec (y - inject_Z (Qfloor y)) (1 # 2)) as [Cy | Cy | Cy];
      try (destruct (Z.even (Qfloor y))); try lia; exfalso; lra.
  - pose proof (round_half_even_below_ceil x). pose proof (round_half_even_above_floor y).
    lia.
Qed.

(** The exponent chosen for a positive number, and the binade it lies in. *)
Lemma exponent_bounds x :
  0 < x ->
  x < pow2 (exponent x + 53)
  /\ ((-1074 < exponent x)%Z -> pow2 (exponent x + 52) <= x).
Proof.
  intros Hx. unfold exponent.
  assert (Ha : Qabs x == x) by (apply Qabs_pos; lra).
  destruct (ilog2_spec (Qabs x)) as [Hl Hu]; [lra |].
  set (l := ilog2 (Qabs x)) in *. split.
  - assert (H : pow2 (l + 1) <= pow2 (Z.max (l - 52) (-1074) + 53)) by (apply pow2_le; lia).
    lra.
  - intros Hc. replace (Z.max (l - 52) (-1074) + 52)%Z with l by lia. lra.
Qed.

Lemma fl_mono x y : 0 <= x -> x <= y -> fl x <= fl y.
Proof.
  intros H0 Hxy. destruct (Qlt_le_dec 0 x) as [Hx | Hx].
  2:{ assert (E : x == 0) by lra. rewrite (fl_comp _ _ E), fl_0. apply fl_nonneg. lra. }
  pose proof (Qred_correct x) as Rx. pose proof (Qred_correct y) as Ry.
  assert (Hm : (exponent (Qred x) <= exponent (Qred y))%Z) by (apply exponent_mono; lra).
  rewrite (fl_spec x), (fl_spec y).
  set (ex := exponent (Qred x)) in *. set (ey := exponent (Qred y)) in *.
  pose proof (pow2_pos ex) as Px. pose proof (pow2_pos ey) as Py.
  destruct (Z.eq_dec ex ey) as [E | E].
  - rewrite <- E. apply Qmult_le_compat_r; [| lra]. rewrite <- Zle_Qle.
    apply round_half_even_mono. apply Qmult_le_compat_r; [lra |].
    apply Qinv_le_0_compat. lra.
  - destruct (exponent_bounds (Qred x)) as [Ux _]; [lra |].
    destruct (exponent_bounds (Qred y)) as [_ Ly]; [lra |].
    fold ex in Ux. fold ey in Ly. specialize (Ly ltac:(unfold exponent in *; lia)).
    assert (A : inject_Z (round_half_even (Qred x / pow2 ex)) <= inject_Z (2 ^ 53)).
    { rewrite <- Zle_Qle. apply round_half_even_upper. rewrite pow2_inject by lia.
      apply Qle_shift_div_r; [exact Px |]. rewrite <- pow2_plus.
      replace (53 + ex)%Z with (ex + 53)%Z by lia. lra. }
    assert (B : inject_Z (2 ^ 52) <= inject_Z (round_half_even (Qred y / pow2 ey))).
    { rewrite <- Zle_Qle. apply round_half_even_lower. rewrite pow2_inject by lia.
      apply Qle_shift_div_l; [exact Py |]. rewrite <- pow2_plus.
      replace (52 + ey)%Z with (ey + 52)%Z by lia. lra. }
    rewrite pow2_inject in A, B by lia.
    assert (C : pow2 53 * pow2 ex <= pow2 52 * pow2 ey).
    { rewrite <- !pow2_plus. apply pow2_le. lia. }
    set (rx := inject_Z (round_half_even (Qred x / pow2 ex))) in *.
    set (ry := inject_Z (round_half_even (Qred y / pow2 ey))) in *.
    assert (D : rx * pow2 ex <= pow2 53 * pow2 ex) by (apply Qmult_le_compat_r; lra).
    assert (F : pow2 52 * pow2 ey <= ry * pow2 ey) by (apply Qmult_le_compat_r; lra).
    lra.
Qed.

Lemma mul_mono a b c d : 0 <= a -> a <= b -> 0 <= c -> c <= d -> mul a c <= mul b d.
Proof. intros. unfold mul. apply fl_mono; nra. Qed.

Lemma add_mono a b c d : 0 <= a -> a <= b -> 0 <= c -> c <= d -> add a c <= add b d.
Proof. intros. unfold add. apply fl_mono; lra. Qed.

Lemma hundredths_mono j k : (0 <= j <= k)%Z -> fl (inject_Z j / 100) <= fl (inject_Z k / 100).
Proof.
  intros [H0 H1].
  assert (A : 0 <= inject_Z j) by (change 0 with (inject_Z 0); now rewrite <- Zle_Qle).
  assert (B : inject_Z j <= inject_Z k) by now rewrite <- Zle_Qle.
  apply fl_mono.
  - apply Qle_shift_div_l; [reflexivity | lra].
  - apply Qmult_le_compat_r; [exact B | discriminate].
Qed.

Lemma round2_mono x y : 0 <= x -> x <= y -> round2 x <= round2 y.
Proof.
  intros H0 Hxy. unfold round2. apply hundredths_mono. split.
  - apply round_half_even_lower. change (inject_Z 0) with 0. lra.
  - apply round_half_even_mono. lra.
Qed.

Lemma np_round2_mono x y : 0 <= x -> x <= y -> np_round2 x <= np_round2 y.
Proof.
  intros H0 Hxy. unfold np_round2, div, mul. apply hundredths_mono. split.
  - apply round_half_even_lower. change (inject_Z 0) with 0. apply fl_nonneg. lra.
  - apply round_half_even_mono. apply fl_mono; lra.
Qed.

End MonoFacts.

(** ** What the weights allow *)

Module WeightCaps.
Import Float RoundFacts FloatFacts Round2Facts MonoFacts.

Local Abbreviation weighted s j := (mul (add (mul s lit_0_6) (mul j lit_0_4)) 100).

Lemma weighted_mono s1 j1 s2 j2 :
  0 <= s1 -> s1 <= s2 -> 0 <= j1 -> j1 <= j2 -> weighted s1 j1 <= weighted s2 j2.
Proof.
  intros Hs0 Hs Hj0 Hj.
  pose proof (proj1 lit_0_6_range) as L6. pose proof (proj1 lit_0_4_range) as L4.
  assert (A0 : 0 <= mul s1 lit_0_6) by (apply fl_nonneg; nra).
  assert (B0 : 0 <= mul j1 lit_0_4) by (apply fl_nonneg; nra).
  assert (A : mul s1 lit_0_6 <= mul s2 lit_0_6) by (apply mul_mono; lra).
  assert (B : mul j1 lit_0_4 <= mul j2 lit_0_4) by (apply mul_mono; lra).
  apply mul_mono; [| | discriminate | discriminate].
  - apply fl_nonneg. lra.
  - apply add_mono; assumption.
Qed.

Lemma weighted_nonneg s j : 0 <= s -> 0 <= j -> 0 <= weighted s j.
Proof.
  intros Hs Hj.
  pose proof (proj1 lit_0_6_range) as L6. pose proof (proj1 lit_0_4_range) as L4.
  assert (A0 : 0 <= mul s lit_0_6) by (apply fl_nonneg; nra).
  assert (B0 : 0 <= mul j lit_0_4) by (apply fl_nonneg; nra).
  apply fl_nonneg. assert (C : 0 <= add (mul s lit_0_6) (mul j lit_0_4)).
  { apply fl_nonneg. lra. }
  lra.
Qed.

Lemma weighted_comp s1 j1 s2 j2 : s1 == s2 -> j1 == j2 -> weighted s1 j1 = weighted s2 j2.
Proof.
  intros Es Ej. unfold mul at 2 3 5 6.
  rewrite (fl_comp (s1 * lit_0_6) (s2 * lit_0_6)) by now rewrite Es.
  rewrite (fl_comp (j1 * lit_0_4) (j2 * lit_0_4)) by now rewrite Ej.
  reflexivity.
Qed.

Lemma weighted_1_0 : weighted 1 0 = 60.
Proof. vm_compute. reflexivity. Qed.

Lemma weighted_0_1 : weighted 0 1 = 40.
Proof. vm_compute. reflexivity. Qed.

Lemma weighted_1_1 : weighted 1 1 = 100.
Proof. vm_compute. reflexivity. Qed.

Lemma weighted_0_0 : weighted 0 0 = 0.
Proof. vm_compute. reflexivity. Qed.

Lemma round2_values :
  round2 0 = 0 /\ round2 40 = 40 /\ round2 60 = 60 /\ round2 100 = 100
  /\ np_round2 0 = 0 /\ np_round2 40 = 40 /\ np_round2 60 = 60 /\ np_round2 100 = 100.
Proof. repeat split; vm_compute; reflexivity. Qed.

Lemma len_ratio_nil {A B} (b : list B) : len_ratio (@nil A) b = 0.
Proof.
  unfold len_ratio, div. simpl List.length. rewrite <- fl_0. apply fl_comp.
  change (inject_Z (Z.of_nat 0)) with 0. unfold Qdiv. ring.
Qed.

Lemma len_ratio_all {A} (l : list A) : l <> [] -> len_ratio l l = 1.
Proof.
  intros Hl. unfold len_ratio, div.
  assert (E : inject_Z (Z.of_nat (List.length l)) / inject_Z (Z.of_nat (List.length l)) == 1).
  { field. change 0 with (inject_Z 0). rewrite inject_Z_injective.
    destruct l; [congruence | simpl; lia]. }
  rewrite (fl_comp _ _ E). vm_compute. reflexivity.
Qed.

Lemma skills_fraction_none skills : skills_fraction skills [] = 0.
Proof. unfold skills_fraction. destruct skills; simpl; [reflexivity | apply len_ratio_nil]. Qed.

End WeightCaps.

(** ** Texts without a word *)

Module BlankFacts.
Import Str Re.

Definition wordless (s : string) : bool := sforall (fun c => negb (Char.is_word c)) s.
Definition blank (s : string) : bool := sforall Char.is_space s.

Lemma space_is_not_word c : Char.is_space c = true -> Char.is_word c = false.
Proof. CharFacts.all_chars c. Qed.

Lemma clean_text_blank text : wordless text = true -> blank (clean_text text) = true.
Proof.
  unfold wordless, blank, clean_text, sub_text_punct, lower.
  induction text as [| c t IH]; [reflexivity |]. cbn [smap sforall]. intros H.
  apply andb_prop in H as [Hc Ht]. rewrite (IH Ht), andb_true_r.
  rewrite CharFacts.is_word_lower. apply negb_true_iff in Hc. rewrite Hc. cbn [orb].
  destruct (Char.is_space (Char.lower c)) eqn:Hs; [exact Hs | reflexivity].
Qed.

Lemma lstrip_blank s : blank s = true -> lstrip s = "".
Proof.
  unfold blank. induction s as [| c t IH]; [reflexivity |]. simpl. intros H.
  apply andb_prop in H as [Hc Ht]. rewrite Hc. auto.
Qed.

Lemma strip_blank s : blank s = true -> strip s = "".
Proof. intros H. unfold strip. now rewrite (lstrip_blank s H). Qed.

Lemma search_from_blank prev lit s :
  blank s = true -> word_at prev = false -> search_from prev lit s = false.
Proof.
  unfold blank. revert prev. induction s as [| c t IH]; intros prev Hs Hp; simpl.
  - unfold match_here, boundary. simpl. now rewrite Hp.
  - simpl in Hs. apply andb_prop in Hs as [Hc Ht].
    pose proof (space_is_not_word c Hc) as Hw.
    unfold match_here, boundary. simpl. rewrite Hp, Hw. simpl.
    apply IH; [exact Ht | exact Hw].
Qed.

Lemma found_list_blank skills s : blank s = true -> found_list skills s = [].
Proof.
  intros Hs. unfold found_list. destruct (_ && _); [| reflexivity].
  induction skills as [| skill rest IH]; [reflexivity |]. simpl.
  unfold search_word. now rewrite (search_from_blank None skill s Hs eq_refl).
Qed.

End BlankFacts.

Section ScoreShape.
Import Float RoundFacts FloatFacts Round2Facts MonoFacts WeightCaps.

Variable tfidf_cosine : string -> string -> option Q.

Lemma round_jd_mono jd_clean cv_clean x y :
  0 <= x -> x <= y ->
  round_jd tfidf_cosine jd_clean cv_clean x <= round_jd tfidf_cosine jd_clean cv_clean y.
Proof using Type.
  intros H0 Hxy. unfold round_jd.
  destruct (jd_cosine tfidf_cosine jd_clean cv_clean);
    [now apply np_round2_mono | now apply round2_mono].
Qed.

(** X3: a candidate text without any letter, digit or underscore scores 0
    in every part and finds no skill, whatever the job asks for. *)
Theorem wordless_text_scores_zero cv_text job_description required_skills :
  BlankFacts.wordless cv_text = true ->
  let r := calculate_match tfidf_cosine cv_text job_description required_skills in
  total_score r = 0 /\ jd_match r = 0 /\ skills_match r = 0 /\ found_skills r = "".
Proof using Type.
  intros Hw. cbv zeta. unfold calculate_match. rewrite !or_empty_id.
  pose proof (BlankFacts.clean_text_blank cv_text Hw) as Hb.
  rewrite (BlankFacts.found_list_blank _ _ Hb), skills_fraction_none.
  assert (E : jd_cosine tfidf_cosine (clean_text job_description) (clean_text cv_text) = None).
  { unfold jd_cosine. rewrite (BlankFacts.strip_blank _ Hb). simpl. now rewrite andb_false_r. }
  unfold round_jd, jd_fraction. rewrite E. cbn [total_score jd_match skills_match found_skills].
  repeat split; vm_compute; reflexivity.
Qed.

(** X4: when at least one skill is required, every required skill is found
    and the vectorizer reports a similarity of 1, the three scores are
    exactly 100: the rounding of the weights 0.6 and 0.4 does not show. *)
Theorem full_match_scores_100 cv_text job_description required_skills :
  skills_list required_skills <> [] ->
  found_of cv_text required_skills = skills_list required_skills ->
  jd_cosine tfidf_cosine (clean_text job_description) (clean_text cv_text) = Some 1 ->
  let r := calculate_match tfidf_cosine cv_text job_description required_skills in
  total_score r = 100 /\ jd_match r = 100 /\ skills_match r = 100.
Proof using Type.
  intros Hne Hf Hj. cbv zeta. unfold calculate_match. rewrite !or_empty_id.
  unfold found_of in Hf. rewrite Hf.
  assert (Es : skills_fraction (skills_list required_skills) (skills_list required_skills) = 1).
  { unfold skills_fraction. destruct (skills_list required_skills) eqn:E; [congruence |].
    simpl negb. cbv iota. apply len_ratio_all. discriminate. }
  rewrite Es. unfold round_jd, jd_fraction. rewrite Hj.
  cbn [total_score jd_match skills_match].
  repeat split; vm_compute; reflexivity.
Qed.

(** The cosine of two vectors with non-negative weights. *)
Hypothesis tfidf_cosine_range :
  forall jd_clean cv_clean q, tfidf_cosine jd_clean cv_clean = Some q -> 0 <= q <= 1.

(** X5: the skills weigh 60 and the similarity 40: with a vectorizer whose
    similarities lie between 0 and 1, the total is at most 60 when it gives
    no similarity, and at most 40 when no skill is found. *)
Theorem total_score_capped_by_weights cv_text job_description required_skills :
  let r := calculate_match tfidf_cosine cv_text job_description required_skills in
  (jd_cosine tfidf_cosine (clean_text job_description) (clean_text cv_text) = None ->
   total_score r <= 60)
  /\ (found_of cv_text required_skills = [] -> total_score r <= 40).
Proof using tfidf_cosine_range.
  cbv zeta. unfold calculate_match, found_of. rewrite !or_empty_id. cbn [total_score].
  pose proof (MatchFacts.skills_fraction_range (skills_list required_skills)
                (clean_text cv_text)) as [Hs0 Hs1].
  pose proof (jd_fraction_range tfidf_cosine tfidf_cosine_range
                (clean_text job_description) (clean_text cv_text)) as [Hj0 Hj1].
  split.
  - intros E. unfold round_jd, jd_fraction in *. rewrite E in *.
    rewrite <- (proj1 (proj2 (proj2 round2_values))), <- weighted_1_0.
    apply round2_mono; [apply weighted_nonneg; lra | apply weighted_mono; lra].
  - intros E. rewrite E, skills_fraction_none.
    pose proof round2_values as (_ & R40 & _ & _ & _ & N40 & _).
    unfold round_jd.
    destruct (jd_cosine tfidf_cosine (clean_text job_description) (clean_text cv_text)).
    + rewrite <- N40, <- weighted_0_1.
      apply np_round2_mono; [apply weighted_nonneg; lra | apply weighted_mono; lra].
    + rewrite <- R40, <- weighted_0_1.
      apply round2_mono; [apply weighted_nonneg; lra | apply weighted_mono; lra].
Qed.

(** X6: the total keeps the order of the fractions: with a vectorizer whose
    similarities lie between 0 and 1, of two texts scored for the same job,
    both with or both without a similarity from the vectorizer, the one
    with no smaller skill fraction and no smaller similarity has no smaller
    total. *)
Theorem total_score_monotone cv1 cv2 job_description required_skills :
  let jd := clean_text job_description in
  let skills := skills_list required_skills in
  let r1 := calculate_match tfidf_cosine cv1 job_description required_skills in
  let r2 := calculate_match tfidf_cosine cv2 job_description required_skills in
  skills_fraction skills (found_of cv1 required_skills)
    <= skills_fraction skills (found_of cv2 required_skills) ->
  jd_fraction tfidf_cosine jd (clean_text cv1) <= jd_fraction tfidf_cosine jd (clean_text cv2) ->
  (is_Some (jd_cosine tfidf_cosine jd (clean_text cv1))
   <-> is_Some (jd_cosine tfidf_cosine jd (clean_text cv2))) ->
  total_score r1 <= total_score r2.
Proof using tfidf_cosine_range.
  cbv zeta. intros Hs Hj Hb. unfold calculate_match, found_of in *. rewrite !or_empty_id.
  cbn [total_score].
  pose proof (MatchFacts.skills_fraction_range (skills_list required_skills)
                (clean_text cv1)) as [Hs0 _].
  pose proof (jd_fraction_range tfidf_cosine tfidf_cosine_range
                (clean_text job_description) (clean_text cv1)) as [Hj0 _].
  assert (Hr : round_jd tfidf_cosine (clean_text job_description) (clean_text cv1)
               = round_jd tfidf_cosine (clean_text job_description) (clean_text cv2)).
  { unfold round_jd.
    destruct (jd_cosine tfidf_cosine (clean_text job_description) (clean_text cv1)),
      (jd_cosine tfidf_cosine (clean_text job_description) (clean_text cv2));
      try reflexivity; destruct Hb as [H1 H2].
    - destruct H1 as [? [=]]. now eexists.
    - destruct H2 as [? [=]]. now eexists. }
  rewrite Hr. apply round_jd_mono; [apply weighted_nonneg; lra | apply weighted_mono; lra].
Qed.

End ScoreShape.

(** ** File names *)

Module NameFacts.
Import SearchFacts.

Definition no_dot (s : string) : bool := Str.sforall (fun c => negb (Ascii.eqb c ".")) s.

Lemma rsplit_last_none s : rsplit_last "." s = None <-> no_dot s = true.
Proof.
  unfold no_dot. induction s as [| c t IH]; simpl; [tauto |].
  destruct (rsplit_last "." t) as [[a b] |].
  - split; [discriminate |]. intros H. apply andb_prop in H as [_ H].
    apply IH in H. discriminate.
  - destruct (Ascii.eqb c "."); simpl; [split; discriminate |].
    split; [intros _; now apply IH | reflexivity].
Qed.

Lemma rsplit_last_some s stem ext :
  rsplit_last "." s = Some (stem, ext) <-> s = stem ++ "." ++ ext /\ no_dot ext = true.
Proof.
  split.
  - revert stem. induction s as [| c t IH]; intros stem; simpl; [discriminate |].
    destruct (rsplit_last "." t) as [[a b] |] eqn:E.
    + intros [= <- <-]. destruct (IH a eq_refl) as [-> Hb]. now norm_append.
    + destruct (Ascii.eqb_spec c ".") as [-> | _]; [| discriminate].
      intros [= <- <-]. norm_append. split; [reflexivity | now apply rsplit_last_none].
  - intros [-> Hb]. induction stem as [| c stem IH]; norm_append; simpl.
    + now rewrite (proj2 (rsplit_last_none ext) Hb).
    + now rewrite IH.
Qed.

End NameFacts.

(** X7: a file name is allowed exactly when it has a dot and what follows
    its last dot is [pdf] or [docx] in any letter case. *)
Theorem allowed_file_iff_pdf_or_docx (filename : string) :
  allowed_file filename = true
  <-> exists stem ext,
        filename = stem ++ "." ++ ext
        /\ NameFacts.no_dot ext = true
        /\ (Str.lower ext = "pdf" \/ Str.lower ext = "docx").
Proof.
  unfold allowed_file, ALLOWED_EXTENSIONS. split.
  - destruct (rsplit_last "." filename) as [[stem ext] |] eqn:E; [| discriminate].
    apply NameFacts.rsplit_last_some in E as [-> Hd]. simpl. intros H.
    exists stem, ext. split; [reflexivity |]. split; [exact Hd |].
    destruct (String.eqb_spec (Str.lower ext) "pdf") as [-> | _]; [now left |].
    destruct (String.eqb_spec (Str.lower ext) "docx") as [-> | _]; [now right |].
    discriminate.
  - intros (stem & ext & -> & Hd & He).
    rewrite (proj2 (NameFacts.rsplit_last_some _ stem ext) (conj eq_refl Hd)).
    destruct He as [-> | ->]; reflexivity.
Qed.

Example allowed_file_examples :
  allowed_file "cv.PDF" = true /\ allowed_file "my.cv.docx" = true
  /\ allowed_file "cv.pdf.exe" = false /\ allowed_file "pdf" = false
  /\ allowed_file "cv.doc" = false.
Proof. repeat split. Qed.

(** ** Joining and splitting paragraphs *)

Module JoinFacts.
Import Str SearchFacts.

Definition without (sep : ascii) (s : string) : bool :=
  sforall (fun c => negb (Ascii.eqb c sep)) s.

Lemma split_on_without sep s : without sep s = true -> split_on sep s = [s].
Proof.
  unfold without. induction s as [| c t IH]; [reflexivity |]. simpl. intros H.
  apply andb_prop in H as [Hc Ht]. apply negb_true_iff in Hc. now rewrite Hc, (IH Ht).
Qed.

Lemma split_on_app sep s rest :
  without sep s = true ->
  split_on sep (s ++ String sep rest) = s :: split_on sep rest.
Proof.
  unfold without. induction s as [| c t IH]; norm_append; simpl.
  - now rewrite Ascii.eqb_refl.
  - intros H. apply andb_prop in H as [Hc Ht]. apply negb_true_iff in Hc.
    now rewrite Hc, (IH Ht).
Qed.

Lemma split_on_join sep l :
  l <> [] -> List.Forall (fun s => without sep s = true) l ->
  split_on sep (join (String sep "") l) = l.
Proof.
  intros Hne H. induction H as [| x rest Hx Hrest IH]; [congruence |].
  destruct rest as [| y rest'].
  - simpl. now apply split_on_without.
  - change (join (String sep "") (x :: y :: rest'))
      with (x ++ String sep "" ++ join (String sep "") (y :: rest')).
    norm_append. rewrite (split_on_app sep x _ Hx). f_equal. apply IH. discriminate.
Qed.

End JoinFacts.

(** ** Which extractor reads a file *)

Section DispatchFacts.

Variable magic_mime : string -> string.
Variable pdfminer_extract_text : string -> result string.
Variable docx_paragraphs : string -> result (list string).

Let extract := extract_text_from_file magic_mime pdfminer_extract_text docx_paragraphs.

(** What comes out when the PDF reader, or the Word reader, is the one
    chosen: its text, or its error under two prefixes. *)
Definition pdf_outcome (bytes : string) : result string :=
  match pdfminer_extract_text bytes with
  | inl text => inl text
  | inr e =>
      inr (Exception ("File processing error: Failed to extract PDF text: " ++ exn_str e))
  end.

Definition docx_outcome (bytes : string) : result string :=
  match docx_paragraphs bytes with
  | inl paragraphs => inl (Str.join newline paragraphs)
  | inr e =>
      inr (Exception ("File processing error: Failed to extract DOCX text: " ++ exn_str e))
  end.

Lemma pdf_branch d path bytes :
  d !! path = Some bytes ->
  reraise "File processing error: " (extract_text_from_pdf pdfminer_extract_text d path)
  = pdf_outcome bytes.
Proof using Type.
  intros Hd. unfold extract_text_from_pdf, read_file, pdf_outcome. rewrite Hd. simpl.
  now destruct (pdfminer_extract_text bytes).
Qed.

Lemma docx_branch d path bytes :
  d !! path = Some bytes ->
  reraise "File processing error: " (extract_text_from_docx docx_paragraphs d path)
  = docx_outcome bytes.
Proof using Type.
  intros Hd. unfold extract_text_from_docx, read_file, docx_outcome. rewrite Hd. simpl.
  now destruct (docx_paragraphs bytes).
Qed.

(** X8: the content decides before the name does: a file that python-magic
    takes for a PDF is read by pdfminer and one it takes for a Word
    document by python-docx, whatever the path is called; a failure of the
    reader comes out as an [Exception] that names both steps. *)
Theorem sniffed_type_chooses_reader d path bytes :
  d !! path = Some bytes ->
  (magic_mime bytes = mime_pdf -> extract d path = pdf_outcome bytes)
  /\ (magic_mime bytes = mime_docx -> extract d path = docx_outcome bytes).
Proof using Type.
  intros Hd. split; intros Hm.
  - rewrite <- (pdf_branch d path bytes Hd).
    unfold extract, extract_text_from_file, read_file. rewrite Hd. simpl.
    now rewrite Hm, String.eqb_refl.
  - rewrite <- (docx_branch d path bytes Hd).
    unfold extract, extract_text_from_file, read_file. rewrite Hd. simpl.
    rewrite Hm. reflexivity.
Qed.

(** X9: when the content is not recognized, the part of the path after its
    last dot chooses the reader, in any letter case. *)
Theorem extension_chooses_reader d path bytes stem ext :
  unrecognized magic_mime d path bytes ->
  path = stem ++ "." ++ ext -> NameFacts.no_dot ext = true ->
  (Str.lower ext = "pdf" -> extract d path = pdf_outcome bytes)
  /\ (Str.lower ext = "docx" -> extract d path = docx_outcome bytes).
Proof using Type.
  intros (Hd & Hp & Hx) Hpath Hdot.
  pose proof (proj2 (NameFacts.rsplit_last_some path stem ext) (conj Hpath Hdot)) as Hs.
  split; intros He.
  - rewrite <- (pdf_branch d path bytes Hd).
    unfold extract, extract_text_from_file, read_file, rsplit1, index.
    rewrite Hd. simpl. rewrite Hp, Hx, Hs. simpl. now rewrite He.
  - rewrite <- (docx_branch d path bytes Hd).
    unfold extract, extract_text_from_file, read_file, rsplit1, index.
    rewrite Hd. simpl. rewrite Hp, Hx, Hs. simpl. now rewrite He.
Qed.

(** X10: whatever fails, the caller sees an [Exception] (never the
    [ValueError], [IndexError] or reader error inside) whose message starts
    with [File processing error: ]. *)
Theorem extraction_errors_are_wrapped d path e :
  extract d path = inr e ->
  exists cause, e = Exception ("File processing error: " ++ cause).
Proof using Type.
  unfold extract, extract_text_from_file, reraise.
  match goal with |- context [match ?body with inl _ => _ | inr _ => _ end] =>
    destruct body as [text | e'] end; [discriminate |].
  intros [= <-]. now exists (exn_str e').
Qed.

(** X11: the text of a Word document is its paragraphs joined by newlines:
    cutting the text at the newlines gives the paragraphs back, in order,
    when there is at least one and none holds a newline itself. *)
Theorem docx_text_round_trip d path bytes paragraphs :
  d !! path = Some bytes ->
  docx_paragraphs bytes = inl paragraphs ->
  paragraphs <> [] ->
  List.Forall (fun p => JoinFacts.without (ascii_of_nat 10) p = true) paragraphs ->
  exists text,
    extract_text_from_docx docx_paragraphs d path = inl text
    /\ Str.split_on (ascii_of_nat 10) text = paragraphs.
Proof using Type.
  intros Hd Hp Hne Hall. exists (Str.join newline paragraphs). split.
  - unfold extract_text_from_docx, read_file. rewrite Hd. simpl. now rewrite Hp.
  - now apply JoinFacts.split_on_join.
Qed.

End DispatchFacts.

(** ** The upload loop *)

Section BatchFacts.

Variable tfidf_cosine : string -> string -> option Q.
Variable magic_mime : string -> string.
Variable pdfminer_extract_text : string -> result string.
Variable docx_paragraphs : string -> result (list string).
Variable secure_filename : string -> string.

Let process := process_upload tfidf_cosine magic_mime pdfminer_extract_text docx_paragraphs
                 secure_filename.
Let process_all := process_uploads tfidf_cosine magic_mime pdfminer_extract_text
                     docx_paragraphs secure_filename.

(** The test [file and file.filename and allowed_file(file.filename)]. *)
Definition accepted (file : Upload) : bool :=
  negb (Str.is_empty (upload_filename file)) && allowed_file (upload_filename file).

(** Where an accepted upload is saved. *)
Definition upload_path (file : Upload) : string :=
  UPLOAD_FOLDER ++ "/" ++ secure_filename (upload_filename file).

Lemma process_rejected job b file : accepted file = false -> process job b file = b.
Proof using Type.
  unfold accepted, process, process_upload. now intros ->.
Qed.

Lemma process_accepted job b file :
  accepted file = true ->
  folder (process job b file) = delete (upload_path file) (folder b)
  /\ ((exists c, candidates (process job b file) = (candidates b ++ [c])%list
                 /\ filename c = secure_filename (upload_filename file)
                 /\ (String.length (cv_preview c) <= 203)%nat
                 /\ flashes (process job b file) = flashes b)
      \/ (exists m, candidates (process job b file) = candidates b
                    /\ flashes (process job b file) = (flashes b ++ [(m, "error")])%list)).
Proof using Type.
  unfold accepted, process, process_upload, upload_path. intros ->.
  set (path := UPLOAD_FOLDER ++ "/" ++ secure_filename (upload_filename file)).
  destruct (extract_text_from_file magic_mime pdfminer_extract_text docx_paragraphs
              (<[path:=upload_bytes file]> (folder b)) path) as [text | e];
    cbn [bind ret folder candidates flashes].
  - split; [apply delete_insert_eq |]. left. eexists. split; [reflexivity |].
    split; [reflexivity |]. split; [| reflexivity]. cbn [cv_preview].
    assert (Ht : forall n s, (String.length (take n s) <= n)%nat).
    { clear. induction n as [| n IH]; intros [| c s]; simpl; try lia.
      specialize (IH s). lia. }
    assert (Ha : forall s t : string,
               String.length (s ++ t) = (String.length s + String.length t)%nat).
    { clear. induction s as [| c s IH]; intros t; [reflexivity |].
      change (String c s ++ t) with (String c (s ++ t)). simpl. now rewrite IH. }
    rewrite Ha. specialize (Ht 200%nat text).
    destruct (200 <? String.length text)%nat;
      [change (String.length "...") with 3%nat | change (String.length "") with 0%nat];
      lia.
  - split; [apply delete_insert_eq |]. right. eexists. split; reflexivity.
Qed.

(** X12: after the loop no accepted upload is left in the upload folder, on
    success and on failure alike, and every other path holds what it held
    before; a file that was already stored under the path of an upload is
    gone as well. *)
Theorem uploads_are_removed job b files path :
  folder (process_all job b files) !! path
  = if existsb (String.eqb path) (List.map upload_path (List.filter accepted files))
    then None
    else folder b !! path.
Proof using Type.
  unfold process_all, process_uploads. revert b.
  induction files as [| file rest IH]; intros b; [reflexivity |].
  cbn [fold_left]. rewrite IH. cbn [List.filter]. fold (process job b file).
  destruct (accepted file) eqn:Ha.
  - destruct (process_accepted job b file Ha) as [Hf _]. rewrite Hf. cbn [List.map existsb].
    destruct (existsb (String.eqb path) (List.map upload_path (List.filter accepted rest)));
      [now rewrite orb_true_r |].
    rewrite orb_false_r. destruct (String.eqb_spec path (upload_path file)) as [-> | Hne].
    + apply lookup_delete_eq.
    + apply lookup_delete_ne. congruence.
  - now rewrite (process_rejected job b file Ha).
Qed.

(** X13: every accepted upload ends as one candidate or as one flashed
    error, never both and never neither; an upload that is not accepted
    leaves no trace. *)
Theorem uploads_are_accounted_for job b files :
  let b' := process_all job b files in
  (List.length (candidates b') + List.length (flashes b')
   = List.length (candidates b) + List.length (flashes b)
     + List.length (List.filter accepted files))%nat
  /\ (exists more, candidates b' = (candidates b ++ more)%list)
  /\ (exists more, flashes b' = (flashes b ++ more)%list).
Proof using Type.
  cbv zeta. unfold process_all, process_uploads. revert b.
  induction files as [| file rest IH]; intros b.
  - simpl. split; [lia |]. split; exists []; now rewrite List.app_nil_r.
  - cbn [fold_left List.filter]. fold (process job b file).
    destruct (IH (process job b file)) as (Hn & [mc Hc] & [mf Hf]).
    destruct (accepted file) eqn:Ha.
    + destruct (process_accepted job b file Ha)
        as [_ [(c & Ec & _ & _ & Ef) | (m & Ec & Ef)]];
        rewrite Ec, Ef in *; rewrite Hc, Hf in *.
      * split; [rewrite !List.length_app in *; simpl in *; lia |].
        split; [exists ([c] ++ mc)%list; now rewrite List.app_assoc | now exists mf].
      * split; [rewrite !List.length_app in *; simpl in *; lia |].
        split; [now exists mc | exists ([(m, "error")] ++ mf)%list; now rewrite List.app_assoc].
    + rewrite (process_rejected job b file Ha) in *. split; [simpl; lia |].
      split; [now exists mc | now exists mf].
Qed.

(** X14: the preview of every candidate has at most 203 characters: 200 of
    the text and the three dots. *)
Theorem previews_are_short job b files :
  List.Forall (fun c => (String.length (cv_preview c) <= 203)%nat) (candidates b) ->
  List.Forall (fun c => (String.length (cv_preview c) <= 203)%nat)
    (candidates (process_all job b files)).
Proof using Type.
  unfold process_all, process_uploads. revert b.
  induction files as [| file rest IH]; intros b Hb; [exact Hb |].
  cbn [fold_left]. apply IH. fold (process job b file).
  destruct (accepted file) eqn:Ha; [| now rewrite (process_rejected job b file Ha)].
  destruct (process_accepted job b file Ha) as [_ [(c & Ec & _ & Hc & _) | (m & Ec & _)]];
    rewrite Ec; [| exact Hb].
  apply List.Forall_app. split; [exact Hb | now constructor].
Qed.


End BatchFacts.

(** ** The stable descending sort *)

Module SortFacts.
Section Sort.

Context {A : Type} (key : A -> Q).

Definition before (a b : A) : Prop := key b <= key a.

Lemma insert_by_perm x l : Permutation (insert_by key x l) (x :: l).
Proof using Type.
  induction l as [| y rest IH]; simpl; [reflexivity |].
  destruct (Qle_bool (key y) (key x)); [reflexivity |].
  rewrite IH. apply perm_swap.
Qed.

Lemma sort_desc_perm l : Permutation (sort_desc key l) l.
Proof using Type.
  induction l as [| x rest IH]; simpl; [reflexivity |].
  rewrite insert_by_perm. now apply perm_skip.
Qed.

Lemma insert_by_sorted x l :
  StronglySorted before l -> StronglySorted before (insert_by key x l).
Proof using Type.
  induction 1 as [| y rest Hs IH Hy]; simpl.
  - constructor; constructor.
  - destruct (Qle_bool (key y) (key x)) eqn:E.
    + apply Qle_bool_iff in E. constructor; [now constructor |].
      constructor; [exact E |].
      eapply List.Forall_impl; [| exact Hy]. unfold before. intros z Hz. simpl in Hz. lra.
    + assert (Hlt : key x < key y).
      { apply Qnot_le_lt. intros H. apply Qle_bool_iff in H. congruence. }
      constructor; [exact IH |].
      rewrite (insert_by_perm x rest). constructor; [| exact Hy].
      unfold before. lra.
Qed.

Lemma sort_desc_sorted l : StronglySorted before (sort_desc key l).
Proof using Type.
  induction l as [| x rest IH]; simpl; [constructor | now apply insert_by_sorted].
Qed.

(** A list that is already in descending order is left as it is. *)
Lemma sort_desc_fixed l : StronglySorted before l -> sort_desc key l = l.
Proof using Type.
  induction 1 as [| x rest Hs IH Hx]; [reflexivity |]. simpl. rewrite IH.
  destruct rest as [| y rest']; [reflexivity |]. simpl.
  apply List.Forall_inv in Hx. unfold before in Hx.
  now rewrite (proj2 (Qle_bool_iff (key y) (key x)) Hx).
Qed.

End Sort.

Lemma rank_is_sort_desc l : rank l = sort_desc score l.
Proof.
  induction l as [| c rest IH]; [reflexivity |]. simpl. rewrite IH.
  generalize (sort_desc score rest). intros sorted.
  induction sorted as [| x more IHs]; [reflexivity |]. simpl. now rewrite IHs.
Qed.

End SortFacts.

(** ** [job_seeker_dashboard] *)

Section DashboardFacts.

Variable tfidf_cosine : string -> string -> option Q.

(** X16: for a job seeker the dashboard lists every job post of the query
    once, in non-increasing order of its match score. *)
Theorem dashboard_lists_jobs_by_score db login newest_first :
  String.eqb (session_type login) "job_seeker" = true ->
  exists rows,
    job_seeker_dashboard tfidf_cosine db (Some login) newest_first = inr rows
    /\ Permutation (List.map row_job rows) newest_first
    /\ StronglySorted (fun a b => row_score b <= row_score a) rows.
Proof using Type.
  intros Ht. unfold job_seeker_dashboard, is_job_seeker. rewrite Ht.
  eexists. split; [reflexivity |]. split.
  - rewrite (SortFacts.sort_desc_perm row_score). rewrite List.map_map. simpl.
    now rewrite List.map_id.
  - apply SortFacts.sort_desc_sorted.
Qed.

(** X17: a job seeker without a profile, or whose profile has no skills,
    sees every job with the score 0 and in the order of the query, newest
    first: the scorer is not called. *)
Theorem dashboard_without_skills_keeps_order db login newest_first :
  String.eqb (session_type login) "job_seeker" = true ->
  match first_where (fun p => Nat.eqb (profile_user p) (session_user login)) (profiles db)
  with
  | Some p => truthy (skills p) = false
  | None => True
  end ->
  exists rows,
    job_seeker_dashboard tfidf_cosine db (Some login) newest_first = inr rows
    /\ List.map row_job rows = newest_first
    /\ List.Forall (fun row => row_score row = 0) rows.
Proof using Type.
  intros Ht Hp. unfold job_seeker_dashboard, is_job_seeker. rewrite Ht.
  set (profile := first_where _ (profiles db)) in *.
  set (rows := List.map (dashboard_row tfidf_cosine db (session_user login) profile)
                 newest_first).
  assert (Hz : List.Forall (fun row => row_score row = 0) rows).
  { apply List.Forall_forall. intros row Hr. apply List.in_map_iff in Hr as (job & <- & _).
    unfold dashboard_row. simpl. destruct profile as [p |]; [now rewrite Hp | reflexivity]. }
  assert (Hs : sort_desc row_score rows = rows).
  { apply SortFacts.sort_desc_fixed. clear -Hz.
    induction Hz as [| row rest Hr Hrest IH]; constructor; [exact IH |].
    eapply List.Forall_impl; [| exact Hrest]. unfold SortFacts.before.
    intros other Ho. simpl in Ho. rewrite Hr, Ho. discriminate. }
  exists rows. rewrite Hs. split; [reflexivity |]. split; [| exact Hz].
  unfold rows. rewrite List.map_map. simpl. apply List.map_id.
Qed.

End DashboardFacts.

(** ** [apply_job] *)

Module TableFacts.

Lemma first_where_none {A} (p : A -> bool) rows :
  first_where p rows = None -> forall x, In x rows -> p x = false.
Proof. unfold first_where. intros H x Hx. exact (List.find_none p rows H x Hx). Qed.

Lemma next_id_above {A} (id : A -> nat) rows x :
  In x rows -> (id x < next_id id rows)%nat.
Proof.
  unfold next_id. induction rows as [| y rest IH]; [intros [] |].
  intros [-> | Hx]; simpl; [lia |]. specialize (IH Hx). lia.
Qed.

Lemma next_id_fresh {A} (id : A -> nat) rows :
  ~ In (next_id id rows) (List.map id rows).
Proof.
  intros H. apply List.in_map_iff in H as (x & Hx & Hin).
  pose proof (next_id_above id rows x Hin). lia.
Qed.

Lemma NoDup_snoc {A} (l : list A) x : List.NoDup l -> ~ In x l -> List.NoDup (l ++ [x]).
Proof.
  intros Hl Hx. apply List.NoDup_app; [exact Hl | repeat constructor; intros [] |].
  intros y Hy [<- | []]. contradiction.
Qed.

End TableFacts.

(** The job and the job seeker of an application. *)
Definition application_pair (a : Application) : nat * nat :=
  (application_job a, application_seeker a).

Section ApplyFacts.

Variable tfidf_cosine : string -> string -> option Q.
Variable format_score : Q -> string.

Let apply := apply_job tfidf_cosine format_score.

(** What [apply_job] does to the tables: nothing, or one more
    application. *)
Lemma apply_job_cases db s job :
  fst (fst (apply db s job)) = db
  \/ exists l j p,
       is_job_seeker s = Some l
       /\ first_where (application_of job (session_user l)) (applications db) = None
       /\ first_where (fun j => Nat.eqb (job_id j) job) (jobs db) = Some j
       /\ first_where (fun p => Nat.eqb (profile_user p) (session_user l)) (profiles db)
          = Some p
       /\ fst (fst (apply db s job))
          = {| users := users db; jobs := jobs db; profiles := profiles db;
               applications :=
                 (applications db
                  ++ [{| application_id := next_id application_id (applications db);
                         application_job := job;
                         application_seeker := session_user l;
                         match_score :=
                           total_score
                             (calculate_match tfidf_cosine
                                (text_of (py_or (resume_text p) (skills p)))
                                (job_description (job_post j))
                                (required_skills (job_post j)));
                         status := "pending" |}])%list |}.
Proof using Type.
  unfold apply, apply_job.
  destruct (is_job_seeker s) as [l |] eqn:El; [| now left].
  destruct (first_where (application_of job (session_user l)) (applications db)) eqn:Ea;
    [now left |].
  destruct (first_where (fun j => Nat.eqb (job_id j) job) (jobs db)) as [j |] eqn:Ej;
    [| now left].
  destruct (first_where (fun p => Nat.eqb (profile_user p) (session_user l)) (profiles db))
    as [p |] eqn:Ep; [| now left].
  right. exists l, j, p. repeat split; assumption.
Qed.

(** X18: applying keeps the applications apart: if no two applications had
    the same id, or the same job and job seeker, before, none have after;
    the users, the job posts and the profiles are not touched. *)
Theorem apply_job_keeps_applications_apart db s job :
  let db' := fst (fst (apply db s job)) in
  (List.NoDup (List.map application_id (applications db)) ->
   List.NoDup (List.map application_id (applications db')))
  /\ (List.NoDup (List.map application_pair (applications db)) ->
      List.NoDup (List.map application_pair (applications db')))
  /\ users db' = users db /\ jobs db' = jobs db /\ profiles db' = profiles db.
Proof using Type.
  cbv zeta.
  destruct (apply_job_cases db s job) as [-> | (l & j & p & Hl & Ha & Hj & Hp & ->)];
    [now repeat split |].
  cbn [applications users jobs profiles]. rewrite !List.map_app. simpl List.map.
  split; [| split; [| now repeat split]].
  - intros Hn. apply TableFacts.NoDup_snoc; [exact Hn | apply TableFacts.next_id_fresh].
  - intros Hn. apply TableFacts.NoDup_snoc; [exact Hn |].
    intros Hin. apply List.in_map_iff in Hin as (a & Hpair & Hin).
    pose proof (TableFacts.first_where_none _ _ Ha a Hin) as Hf.
    unfold application_of in Hf. unfold application_pair in Hpair.
    injection Hpair as H1 H2. rewrite H1, H2, !Nat.eqb_refl in Hf. discriminate.
Qed.

(** X19: applying for the same job a second time changes nothing. *)
Theorem apply_job_twice_is_once db s job :
  let db' := fst (fst (apply db s job)) in
  fst (fst (apply db' s job)) = db'.
Proof using Type.
  cbv zeta.
  destruct (apply_job_cases db s job) as [E | (l & j & p & Hl & Ha & Hj & Hp & ->)].
  - (* the first call changed nothing: the second call is the first *)
    now rewrite !E.
  - set (db' := {| users := users db |}).
    unfold apply, apply_job. rewrite Hl.
    assert (Hf : exists a, first_where (application_of job (session_user l))
                            (applications db') = Some a).
    { unfold first_where. cbn [applications db'].
      destruct (List.find (application_of job (session_user l)) _) as [a |] eqn:E;
        [now exists a |].
      exfalso.
      match type of E with List.find _ (_ ++ [?new])%list = None =>
        pose proof (List.find_none _ _ E new) as Hfalse end.
      specialize (Hfalse ltac:(apply List.in_or_app; right; now left)).
      unfold application_of in Hfalse. cbn in Hfalse.
      rewrite !Nat.eqb_refl in Hfalse. discriminate. }
    destruct Hf as [a ->]. reflexivity.
Qed.

(** The cosine of two vectors with non-negative weights. *)
Hypothesis tfidf_cosine_range :
  forall jd_clean cv_clean q, tfidf_cosine jd_clean cv_clean = Some q -> 0 <= q <= 1.

(** X20: with a vectorizer whose similarities lie between 0 and 1, every
    application is stored with a match score between 0 and 100, provided
    those stored before are. *)
Theorem apply_job_stores_a_percentage db s job :
  List.Forall (fun a => 0 <= match_score a <= 100) (applications db) ->
  List.Forall (fun a => 0 <= match_score a <= 100)
    (applications (fst (fst (apply db s job)))).
Proof using tfidf_cosine_range.
  intros Hall.
  destruct (apply_job_cases db s job) as [-> | (l & j & p & Hl & Ha & Hj & Hp & ->)];
    [exact Hall |].
  cbn [applications]. apply List.Forall_app. split; [exact Hall |].
  constructor; [| constructor]. cbn [match_score].
  unfold calculate_match. rewrite !or_empty_id. cbn [total_score].
  apply round_jd_range. apply WeightFacts.weighted_range.
  - apply MatchFacts.skills_fraction_range.
  - apply jd_fraction_range. exact tfidf_cosine_range.
Qed.

End ApplyFacts.

(** ** [update_application_status] *)

Module StatusFacts.

Lemma set_status_other id new_status a :
  Nat.eqb (application_id a) id = false -> set_status id new_status a = a.
Proof. unfold set_status. now intros ->. Qed.

(** With ids as the key of the table, the row found by its id is the only
    row that [set_status] changes. *)
Lemma map_set_status id new_status rows a :
  List.NoDup (List.map application_id rows) ->
  first_where (fun a => Nat.eqb (application_id a) id) rows = Some a ->
  exists before after,
    rows = (before ++ a :: after)%list
    /\ application_id a = id
    /\ List.map (set_status id new_status) rows
       = (before ++ set_status id new_status a :: after)%list.
Proof.
  unfold first_where. induction rows as [| b rest IH]; [discriminate |].
  simpl. intros Hn Hf. apply List.NoDup_cons_iff in Hn as [Hb Hn].
  destruct (Nat.eqb (application_id b) id) eqn:Eb.
  - injection Hf as ->. apply Nat.eqb_eq in Eb. exists [], rest. split; [reflexivity |].
    split; [exact Eb |]. simpl. f_equal.
    rewrite <- (List.map_id rest) at 2. apply List.map_ext_in. intros c Hc.
    apply set_status_other. apply Nat.eqb_neq. intros Ec. apply Hb.
    rewrite Eb, <- Ec. now apply List.in_map.
  - destruct (IH Hn Hf) as (before & after & -> & Hid & Hm).
    exists (b :: before), after. split; [reflexivity |]. split; [exact Hid |].
    simpl. now rewrite Hm, (set_status_other _ _ _ Eb).
Qed.

End StatusFacts.

(** X21: with ids as the key of the applications, a status is changed only
    by a recruiter who owns the job post of the application, and only on
    the application that was named: when the table changes at all, it is
    that one row whose status is replaced, its id, job, job seeker and
    score staying as they are. *)
Theorem only_the_owner_changes_a_status db s id new_status :
  List.NoDup (List.map application_id (applications db)) ->
  let db' := fst (fst (update_application_status db s id new_status)) in
  db' = db
  \/ exists l a j before after,
       is_recruiter s = Some l
       /\ applications db = (before ++ a :: after)%list
       /\ application_id a = id
       /\ first_where (fun j => Nat.eqb (job_id j) (application_job a)) (jobs db) = Some j
       /\ job_owner j = session_user l
       /\ db' = {| users := users db; jobs := jobs db; profiles := profiles db;
                   applications :=
                     (before
                      ++ {| application_id := application_id a;
                            application_job := application_job a;
                            application_seeker := application_seeker a;
                            match_score := match_score a;
                            status := new_status |} :: after)%list |}.
Proof.
  intros Hn. cbv zeta. unfold update_application_status.
  destruct (is_recruiter s) as [l |] eqn:Hl; [| now left].
  destruct (first_where (fun a => Nat.eqb (application_id a) id) (applications db))
    as [a |] eqn:Ha; [| now left].
  destruct (first_where (fun j => Nat.eqb (job_id j) (application_job a)) (jobs db))
    as [j |] eqn:Hj; [| now left].
  destruct (Nat.eqb (job_owner j) (session_user l)) eqn:Ho; simpl negb; cbv iota;
    [| now left].
  right. apply Nat.eqb_eq in Ho.
  destruct (StatusFacts.map_set_status id new_status _ a Hn Ha)
    as (before & after & Hrows & Hid & Hm).
  exists l, a, j, before, after. repeat split; try assumption.
  cbn [fst]. rewrite Hm. unfold set_status.
  now rewrite (proj2 (Nat.eqb_eq _ _) Hid).
Qed.

(** ** [index] *)

Lemma first_where_snoc {A} (p : A -> bool) rows x :
  first_where p rows = None -> p x = true -> first_where p (rows ++ [x])%list = Some x.
Proof.
  unfold first_where. intros Hn Hx. induction rows as [| y rest IH]; simpl in *.
  - now rewrite Hx.
  - destruct (p y); [discriminate | now apply IH].
Qed.

Section IndexFacts.

Variable generate_password_hash : string -> string.
Variable check_password_hash : string -> string -> bool.
Variable validate_on_submit : option LoginForm -> bool.

Let index_ := index_route generate_password_hash check_password_hash validate_on_submit.

Definition db_of {B C D} (r : Database * B * C * D) : Database := fst (fst (fst r)).
Definition session_of {A C D} (r : A * Session * C * D) : Session := snd (fst (fst r)).

(** X22: users that have different e-mail addresses, and different ids,
    before a visit of [index] have them after it: a user is added only for
    an address that no stored user has; nothing but the table of users is
    ever changed, and that only by adding one user at its end. *)
Theorem index_keeps_emails_apart db s request :
  let db' := db_of (index_ db s request) in
  (List.NoDup (List.map email (users db)) -> List.NoDup (List.map email (users db')))
  /\ (List.NoDup (List.map user_id (users db)) -> List.NoDup (List.map user_id (users db')))
  /\ jobs db' = jobs db /\ profiles db' = profiles db
  /\ applications db' = applications db
  /\ (users db' = users db \/ exists u, users db' = (users db ++ [u])%list).
Proof using Type.
  cbv zeta. unfold index_, index_route, db_of.
  destruct s as [l |]; [now repeat split; try left |].
  destruct request as [form |]; [| now repeat split; try left].
  destruct (validate_on_submit (Some form)); [| now repeat split; try left].
  destruct (first_where (fun u => String.eqb (email u) (form_email form)) (users db))
    as [user |] eqn:Eu.
  - destruct (_ && _); now repeat split; try left.
  - cbn [fst users jobs profiles applications]. rewrite !List.map_app. simpl List.map.
    split; [| split; [| repeat split; right; eexists; reflexivity]].
    + intros Hn. apply TableFacts.NoDup_snoc; [exact Hn |].
      intros Hin. apply List.in_map_iff in Hin as (u & He & Hin).
      pose proof (TableFacts.first_where_none _ _ Eu u Hin) as Hf. cbn in Hf.
      rewrite He, String.eqb_refl in Hf. discriminate.
    + intros Hn. apply TableFacts.NoDup_snoc; [exact Hn | apply TableFacts.next_id_fresh].
Qed.

(** X23: a visitor who is not logged in gets the session of a stored user
    only with that user's address, a password that [check_password_hash]
    accepts for the stored hash, and the stored user type; any other
    session that [index] opens belongs to the user it has just added, for
    an address that no stored user had. *)
Theorem index_checks_the_password db form login :
  session_of (index_ db None (Some form)) = Some login ->
  (exists user,
     In user (users db)
     /\ email user = form_email form
     /\ check_password_hash (password_hash user) (form_password form) = true
     /\ user_type user = form_user_type form
     /\ login = login_of user
     /\ db_of (index_ db None (Some form)) = db)
  \/ (first_where (fun u => String.eqb (email u) (form_email form)) (users db) = None
      /\ exists user,
           users (db_of (index_ db None (Some form))) = (users db ++ [user])%list
           /\ login = login_of user
           /\ email user = form_email form
           /\ user_type user = form_user_type form
           /\ password_hash user = generate_password_hash (form_password form)).
Proof using Type.
  unfold index_, index_route, session_of, db_of.
  destruct (validate_on_submit (Some form)); [| discriminate].
  destruct (first_where (fun u => String.eqb (email u) (form_email form)) (users db))
    as [user |] eqn:Eu.
  - destruct (check_password_hash _ _ && _) eqn:Ec; [| discriminate].
    cbn [fst snd]. intros [= <-]. left. exists user.
    apply andb_prop in Ec as [Hc Ht]. apply String.eqb_eq in Ht.
    unfold first_where in Eu. apply List.find_some in Eu as [Hin He].
    apply String.eqb_eq in He. now repeat split.
  - cbn [fst snd users]. intros [= <-]. right. split; [reflexivity |].
    eexists. repeat split.
Qed.

(** [check_password_hash] accepts what [generate_password_hash] made. *)
Hypothesis password_round_trip :
  forall password, check_password_hash (generate_password_hash password) password = true.

(** X24: when [check_password_hash] accepts what [generate_password_hash]
    made, a visitor who has just been registered with a valid form and a
    new address can log in again with the same form: the second visit
    opens the same session and adds no user. *)
Theorem registered_user_can_log_in_again db form :
  validate_on_submit (Some form) = true ->
  first_where (fun u => String.eqb (email u) (form_email form)) (users db) = None ->
  let first := index_ db None (Some form) in
  let second := index_ (db_of first) None (Some form) in
  (exists user, session_of first = Some (login_of user)
                /\ users (db_of first) = (users db ++ [user])%list)
  /\ session_of second = session_of first
  /\ db_of second = db_of first.
Proof using password_round_trip.
  intros Hv Hn. cbv zeta. unfold index_, index_route, session_of, db_of.
  rewrite Hv, Hn. cbn [fst snd users].
  set (user := {| user_id := next_id user_id (users db) |}).
  assert (Hf : first_where (fun u => String.eqb (email u) (form_email form))
                 (users db ++ [user])%list = Some user).
  { apply first_where_snoc; [exact Hn | apply String.eqb_refl]. }
  rewrite Hf. cbn [password_hash user_type user]. rewrite password_round_trip, String.eqb_refl.
  cbn [andb fst snd]. split; [exists user; split; reflexivity |]. split; reflexivity.
Qed.

End IndexFacts.

(** ** [job_seeker_profile] *)

Section ProfileFacts.

Variable magic_mime : string -> string.
Variable pdfminer_extract_text : string -> result string.
Variable docx_paragraphs : string -> result (list string).
Variable secure_filename : string -> string.

Let extract := extract_text_from_file magic_mime pdfminer_extract_text docx_paragraphs.
Let scan := scan_resume magic_mime pdfminer_extract_text docx_paragraphs secure_filename.
Let save := save_profile magic_mime pdfminer_extract_text docx_paragraphs secure_filename.

(** What reading an upload gives: the file is saved under its path and
    read from there, so nothing else in the upload folder matters. *)
Definition read_upload (file : Upload) : result string :=
  let filepath := UPLOAD_FOLDER ++ "/" ++ secure_filename (upload_filename file) in
  extract (<[filepath := upload_bytes file]> ∅) filepath.

Lemma extract_reads_own_path (d : disk) file :
  let filepath := UPLOAD_FOLDER ++ "/" ++ secure_filename (upload_filename file) in
  extract (<[filepath := upload_bytes file]> d) filepath = read_upload file.
Proof using Type.
  unfold read_upload, extract, extract_text_from_file, extract_text_from_pdf,
    extract_text_from_docx, read_file.
  cbv zeta. now rewrite !lookup_insert_eq.
Qed.

Definition readable (file : Upload) : bool :=
  negb (Str.is_empty (upload_filename file)) && allowed_file (upload_filename file)
  && match read_upload file with inl _ => true | inr _ => false end.

(** X25: the resume text is that of the first accepted upload that can be
    read, and the empty string when there is none; the uploads after that
    one are not looked at: the loop ends there. *)
Theorem first_readable_resume_wins d files :
  scan_text (scan d files)
  = match List.find readable files with
    | Some file => match read_upload file with inl text => text | inr _ => "" end
    | None => ""
    end
  /\ forall earlier file later,
       files = (earlier ++ file :: later)%list ->
       readable file = true ->
       scan d files = scan d (earlier ++ [file])%list.
Proof using Type.
  split.
  - revert d. induction files as [| file rest IH]; intros d; [reflexivity |].
    unfold scan in *. cbn [scan_resume List.find]. unfold readable at 1.
    destruct (negb (Str.is_empty (upload_filename file)) && allowed_file (upload_filename file));
      [| apply IH].
    fold extract. rewrite extract_reads_own_path.
    destruct (read_upload file) as [text | e] eqn:E; cbn [andb scan_text];
      [now rewrite E | apply IH].
  - intros earlier file later -> Hr. revert d.
    induction earlier as [| other rest IH]; intros d; unfold scan in *.
    + unfold readable in Hr. cbn [app scan_resume].
      destruct (negb (Str.is_empty (upload_filename file)) && allowed_file (upload_filename file));
        [| discriminate].
      fold extract. rewrite extract_reads_own_path.
      destruct (read_upload file); [reflexivity | discriminate].
    + cbn [app scan_resume].
      destruct (negb (Str.is_empty (upload_filename other))
                && allowed_file (upload_filename other)); [| apply IH].
      destruct (extract_text_from_file _ _ _ _ _); [reflexivity |]. now rewrite IH.
Qed.

Lemma update_first_users (f : Profile -> Profile) p rows :
  (forall x, profile_user (f x) = profile_user x) ->
  List.map profile_user (update_first p f rows) = List.map profile_user rows.
Proof using Type.
  intros Hf. induction rows as [| x rest IH]; [reflexivity |]. simpl.
  destruct (p x); simpl; [now rewrite Hf | now rewrite IH].
Qed.

Lemma update_first_found (f : Profile -> Profile) p rows x :
  first_where p rows = Some x -> p (f x) = true ->
  first_where p (update_first p f rows) = Some (f x).
Proof using Type.
  unfold first_where. intros Hx Hp. induction rows as [| y rest IH]; [discriminate |].
  simpl in *. destruct (p y) eqn:Ey.
  - injection Hx as ->. simpl. now rewrite Hp.
  - simpl. rewrite Ey. now apply IH.
Qed.

(** X26: saving a profile keeps the profiles at one per user, if they were,
    and touches nothing but the profiles: afterwards the user has a profile with the name and
    the skills of the form; its resume text is the text that was read, or,
    when no text was read, the resume text stored before (the empty string
    for a new profile). *)
Theorem save_profile_keeps_one_per_user db d uid form :
  let db' := fst (fst (fst (save db d uid form))) in
  let text := scan_text (scan d (form_files form)) in
  let mine := fun p => Nat.eqb (profile_user p) uid in
  (List.NoDup (List.map profile_user (profiles db)) ->
   List.NoDup (List.map profile_user (profiles db')))
  /\ users db' = users db /\ jobs db' = jobs db /\ applications db' = applications db
  /\ exists p',
       first_where mine (profiles db') = Some p'
       /\ profile_user p' = uid
       /\ full_name p' = form_full_name form
       /\ skills p' = Some (form_skills form)
       /\ resume_text p'
          = if negb (Str.is_empty text) then Some text
            else match first_where mine (profiles db) with
                 | Some p => resume_text p
                 | None => Some ""
                 end.
Proof using Type.
  cbv zeta. unfold save, save_profile. cbn [fst users jobs profiles applications].
  fold scan. set (text := scan_text (scan d (form_files form))).
  destruct (first_where (fun p => Nat.eqb (profile_user p) uid) (profiles db))
    as [p |] eqn:Ep.
  - split; [| repeat split].
    + intros Hn. now rewrite update_first_users.
    + eexists. split.
      * apply update_first_found; [exact Ep |]. cbn [profile_user].
        unfold first_where in Ep. now apply List.find_some in Ep as [_ Hp].
      * cbn [profile_user full_name skills resume_text].
        unfold first_where in Ep. apply List.find_some in Ep as [_ Hp].
        apply Nat.eqb_eq in Hp. now repeat split.
  - split; [| repeat split].
    + intros Hn. rewrite List.map_app. simpl List.map.
      apply TableFacts.NoDup_snoc; [exact Hn |]. intros Hin.
      apply List.in_map_iff in Hin as (q & Hq & Hin).
      pose proof (TableFacts.first_where_none _ _ Ep q Hin) as Hf. cbn in Hf.
      rewrite Hq, Nat.eqb_refl in Hf. discriminate.
    + eexists. split.
      * apply first_where_snoc; [exact Ep |]. cbn [profile_user]. apply Nat.eqb_refl.
      * cbn [profile_user full_name skills resume_text]. repeat split.
        destruct text; reflexivity.
Qed.

End ProfileFacts.

(** ** Sample libraries and tables

    Stand-ins for the libraries, and a small database, at which the
    theorems above are applied. *)

Definition sample_magic (bytes : string) : string :=
  if String.prefix "%PDF" bytes then mime_pdf
  else if String.prefix "PK" bytes then mime_docx
  else "text/plain".

Definition sample_pdfminer (bytes : string) : result string :=
  if String.prefix "%PDF" bytes then ret (String.substring 4 (String.length bytes) bytes)
  else raise (Exception "No /Root object! - Is this really a PDF?").

Definition sample_docx (bytes : string) : result (list string) :=
  if String.prefix "PK" bytes then ret ["Jane Doe"; "Python developer"]
  else raise (Exception "File is not a zip file").

Definition sample_secure_filename (name : string) : string :=
  Str.sfilter (fun c => negb (Ascii.eqb c "/")) name.

Definition sample_generate_password_hash (password : string) : string :=
  "plain$" ++ password.

Definition sample_check_password_hash (hash password : string) : bool :=
  String.eqb hash ("plain$" ++ password).

Definition sample_validate_on_submit (request : option LoginForm) : bool :=
  match request with
  | Some form => Nat.leb 6 (String.length (form_password form))
  | None => false
  end.

Definition sample_format_score (q : Q) : string :=
  if Qeq_bool q 0 then "0" else "50.0".

Definition sample_job : JobPost :=
  {| job_description := "Python developer for data pipelines";
     required_skills := "Python, SQL" |}.

Definition sample_database : Database :=
  {| users :=
       [ {| user_id := 1; email := "hr@acme.test"; password_hash := "plain$hiring";
            user_type := "recruiter"; user_name := "hr" |};
         {| user_id := 2; email := "jane@mail.test"; password_hash := "plain$resume";
            user_type := "job_seeker"; user_name := "jane" |};
         {| user_id := 3; email := "omar@mail.test"; password_hash := "plain$career";
            user_type := "job_seeker"; user_name := "omar" |} ];
     jobs := [ {| job_id := 1; job_owner := 1; job_post := sample_job; is_active := true |} ];
     profiles :=
       [ {| profile_user := 2; full_name := "Jane Doe"; resume_text := None;
            skills := Some "python, docker" |} ];
     applications :=
       [ {| application_id := 1; application_job := 1; application_seeker := 2;
            match_score := 50; status := "pending" |} ] |}.

Definition jane : Login :=
  {| session_user := 2; session_type := "job_seeker"; session_name := "jane" |}.

Definition omar : Login :=
  {| session_user := 3; session_type := "job_seeker"; session_name := "omar" |}.

Definition recruiter : Login :=
  {| session_user := 1; session_type := "recruiter"; session_name := "hr" |}.

Definition sample_pdf : Upload :=
  {| upload_filename := "cv.pdf"; upload_bytes := "%PDF Python developer" |}.

Definition sample_notes : Upload :=
  {| upload_filename := "notes.txt"; upload_bytes := "to do" |}.

Definition sample_broken : Upload :=
  {| upload_filename := "scan.pdf"; upload_bytes := "not a document" |}.

(** ** The theorems at the samples *)

Lemma wordless_text_scores_zero_witness :
  BlankFacts.wordless " -- " = true
  /\ total_score (calculate_match sample_cosine " -- " "python developer" "Python") = 0.
Proof.
  split; [vm_compute; reflexivity |].
  apply (wordless_text_scores_zero sample_cosine " -- " "python developer" "Python").
  vm_compute; reflexivity.
Defined.

Lemma full_match_scores_100_witness :
  skills_list "python" <> []
  /\ found_of "python developer" "python" = skills_list "python"
  /\ total_score (calculate_match sample_cosine "python developer" "Python Developer" "python")
     = 100.
Proof.
  split; [vm_compute; discriminate |]. split; [vm_compute; reflexivity |].
  apply (full_match_scores_100 sample_cosine "python developer" "Python Developer" "python").
  - vm_compute; discriminate.
  - vm_compute; reflexivity.
  - vm_compute; reflexivity.
Defined.

Lemma total_score_capped_by_weights_witness :
  found_of "java" "python" = []
  /\ total_score (calculate_match sample_cosine "java" "python developer" "python") <= 40.
Proof.
  split; [vm_compute; reflexivity |].
  apply (total_score_capped_by_weights sample_cosine sample_cosine_range
           "java" "python developer" "python").
  vm_compute; reflexivity.
Defined.

Lemma total_score_monotone_witness :
  skills_fraction (skills_list "python") (found_of "java" "python")
    <= skills_fraction (skills_list "python") (found_of "python" "python")
  /\ total_score (calculate_match sample_cosine "java" "python developer" "python")
     <= total_score (calculate_match sample_cosine "python" "python developer" "python").
Proof.
  split; [apply Qle_bool_iff; vm_compute; reflexivity |].
  apply (total_score_monotone sample_cosine sample_cosine_range
           "java" "python" "python developer" "python").
  - apply Qle_bool_iff; vm_compute; reflexivity.
  - apply Qle_bool_iff; vm_compute; reflexivity.
  - split; intros _; vm_compute; eexists; reflexivity.
Defined.

Lemma sniffed_type_chooses_reader_witness :
  sample_magic "%PDF Python developer" = mime_pdf
  /\ extract_text_from_file sample_magic sample_pdfminer sample_docx
       {[ "uploads/cv.docx" := "%PDF Python developer" ]} "uploads/cv.docx"
     = pdf_outcome sample_pdfminer "%PDF Python developer".
Proof.
  split; [vm_compute; reflexivity |].
  apply (sniffed_type_chooses_reader sample_magic sample_pdfminer sample_docx
           {[ "uploads/cv.docx" := "%PDF Python developer" ]} "uploads/cv.docx"
           "%PDF Python developer").
  - apply lookup_singleton_eq.
  - vm_compute; reflexivity.
Defined.

Lemma extension_chooses_reader_witness :
  Str.lower "DOCX" = "docx"
  /\ extract_text_from_file sample_magic sample_pdfminer sample_docx
       {[ "uploads/cv.DOCX" := "plain text" ]} "uploads/cv.DOCX"
     = docx_outcome sample_docx "plain text".
Proof.
  split; [vm_compute; reflexivity |].
  apply (extension_chooses_reader sample_magic sample_pdfminer sample_docx
           {[ "uploads/cv.DOCX" := "plain text" ]} "uploads/cv.DOCX" "plain text"
           "uploads/cv" "DOCX").
  - split; [apply lookup_singleton_eq | split; vm_compute; reflexivity].
  - reflexivity.
  - vm_compute; reflexivity.
  - vm_compute; reflexivity.
Defined.

Lemma extraction_errors_are_wrapped_witness :
  extract_text_from_file sample_magic sample_pdfminer sample_docx
    {[ "uploads/pdf" := "plain text" ]} "uploads/pdf"
  = inr (Exception "File processing error: list index out of range")
  /\ exists cause,
       Exception "File processing error: list index out of range"
       = Exception ("File processing error: " ++ cause).
Proof.
  assert (H : extract_text_from_file sample_magic sample_pdfminer sample_docx
                {[ "uploads/pdf" := "plain text" ]} "uploads/pdf"
              = inr (Exception "File processing error: list index out of range")).
  { apply (extensionless_index_error _ _ _ _ _ "plain text"); [| reflexivity].
    split; [apply lookup_singleton_eq | split; reflexivity]. }
  split; [exact H |].
  exact (extraction_errors_are_wrapped sample_magic sample_pdfminer sample_docx _ _ _ H).
Defined.

Lemma docx_text_round_trip_witness :
  sample_docx "PK archive" = inl ["Jane Doe"; "Python developer"]
  /\ exists text,
       extract_text_from_docx sample_docx {[ "uploads/cv.docx" := "PK archive" ]}
         "uploads/cv.docx" = inl text
       /\ Str.split_on (ascii_of_nat 10) text = ["Jane Doe"; "Python developer"].
Proof.
  split; [reflexivity |].
  apply (docx_text_round_trip sample_docx {[ "uploads/cv.docx" := "PK archive" ]}
           "uploads/cv.docx" "PK archive").
  - apply lookup_singleton_eq.
  - reflexivity.
  - discriminate.
  - repeat constructor.
Defined.

Lemma previews_are_short_witness :
  List.Forall (fun c => (String.length (cv_preview c) <= 203)%nat)
    (candidates
       (process_uploads sample_cosine sample_magic sample_pdfminer sample_docx
          sample_secure_filename sample_job
          {| candidates := []; flashes := []; folder := ∅ |}
          [sample_pdf; sample_notes; sample_broken])).
Proof.
  apply (previews_are_short sample_cosine sample_magic sample_pdfminer sample_docx
           sample_secure_filename sample_job
           {| candidates := []; flashes := []; folder := ∅ |}
           [sample_pdf; sample_notes; sample_broken]).
  constructor.
Defined.


Lemma dashboard_lists_jobs_by_score_witness :
  exists rows,
    job_seeker_dashboard sample_cosine sample_database (Some jane) (jobs sample_database)
    = inr rows
    /\ Permutation (List.map row_job rows) (jobs sample_database)
    /\ StronglySorted (fun a b => row_score b <= row_score a) rows.
Proof.
  apply (dashboard_lists_jobs_by_score sample_cosine sample_database jane
           (jobs sample_database)).
  reflexivity.
Defined.

Lemma dashboard_without_skills_keeps_order_witness :
  first_where (fun p => Nat.eqb (profile_user p) (session_user omar))
    (profiles sample_database) = None
  /\ exists rows,
       job_seeker_dashboard sample_cosine sample_database (Some omar) (jobs sample_database)
       = inr rows
       /\ List.map row_job rows = jobs sample_database
       /\ List.Forall (fun row => row_score row = 0) rows.
Proof.
  split; [reflexivity |].
  apply (dashboard_without_skills_keeps_order sample_cosine sample_database omar
           (jobs sample_database)).
  - reflexivity.
  - exact I.
Defined.

Lemma apply_job_keeps_applications_apart_witness :
  List.NoDup (List.map application_pair (applications sample_database))
  /\ List.NoDup
       (List.map application_pair
          (applications
             (fst (fst (apply_job sample_cosine sample_format_score sample_database
                          (Some jane) 1))))).
Proof.
  assert (H : List.NoDup (List.map application_pair (applications sample_database))).
  { repeat constructor. intros []. }
  split; [exact H |].
  apply (apply_job_keeps_applications_apart sample_cosine sample_format_score
           sample_database (Some jane) 1).
  exact H.
Defined.

Lemma apply_job_stores_a_percentage_witness :
  List.Forall (fun a => 0 <= match_score a <= 100) (applications sample_database)
  /\ List.Forall (fun a => 0 <= match_score a <= 100)
       (applications
          (fst (fst (apply_job sample_cosine sample_format_score
                       {| users := users sample_database;
                          jobs := jobs sample_database;
                          profiles := profiles sample_database;
                          applications := [] |} (Some jane) 1)))).
Proof.
  split; [repeat constructor; discriminate |].
  apply (apply_job_stores_a_percentage sample_cosine sample_format_score
           sample_cosine_range).
  constructor.
Defined.

Lemma only_the_owner_changes_a_status_witness :
  List.NoDup (List.map application_id (applications sample_database))
  /\ (fst (fst (update_application_status sample_database (Some recruiter) 1 "accepted"))
      = sample_database
      \/ exists l a j before after,
           is_recruiter (Some recruiter) = Some l
           /\ applications sample_database = (before ++ a :: after)%list
           /\ application_id a = 1%nat
           /\ first_where (fun j => Nat.eqb (job_id j) (application_job a))
                (jobs sample_database) = Some j
           /\ job_owner j = session_user l
           /\ fst (fst (update_application_status sample_database (Some recruiter) 1
                          "accepted"))
              = {| users := users sample_database;
                   jobs := jobs sample_database;
                   profiles := profiles sample_database;
                   applications :=
                     (before
                      ++ {| application_id := application_id a;
                            application_job := application_job a;
                            application_seeker := application_seeker a;
                            match_score := match_score a;
                            status := "accepted" |} :: after)%list |}).
Proof.
  assert (H : List.NoDup (List.map application_id (applications sample_database))).
  { repeat constructor. intros []. }
  split; [exact H |].
  exact (only_the_owner_changes_a_status sample_database (Some recruiter) 1 "accepted" H).
Defined.

Definition jane_form : LoginForm :=
  {| form_email := "jane@mail.test"; form_password := "resume";
     form_user_type := "job_seeker" |}.

Definition new_form : LoginForm :=
  {| form_email := "lena@mail.test"; form_password := "welcome";
     form_user_type := "recruiter" |}.

Lemma index_keeps_emails_apart_witness :
  List.NoDup (List.map email (users sample_database))
  /\ List.NoDup
       (List.map email
          (users
             (db_of (index_route sample_generate_password_hash sample_check_password_hash
                       sample_validate_on_submit sample_database None (Some new_form))))).
Proof.
  assert (H : List.NoDup (List.map email (users sample_database))).
  { repeat constructor; cbn; intuition discriminate. }
  split; [exact H |].
  apply (index_keeps_emails_apart sample_generate_password_hash sample_check_password_hash
           sample_validate_on_submit sample_database None (Some new_form)).
  exact H.
Defined.

Lemma index_checks_the_password_witness :
  session_of (index_route sample_generate_password_hash sample_check_password_hash
                sample_validate_on_submit sample_database None (Some jane_form))
  = Some jane
  /\ exists user,
       In user (users sample_database)
       /\ sample_check_password_hash (password_hash user) "resume" = true
       /\ jane = login_of user.
Proof.
  assert (H : session_of (index_route sample_generate_password_hash sample_check_password_hash
                            sample_validate_on_submit sample_database None (Some jane_form))
              = Some jane) by reflexivity.
  split; [exact H |].
  destruct (index_checks_the_password sample_generate_password_hash
              sample_check_password_hash sample_validate_on_submit sample_database
              jane_form jane H) as [(user & Hin & _ & Hc & _ & Hl & _) | [Hnone _]].
  - exists user. now repeat split.
  - discriminate Hnone.
Defined.

Lemma registered_user_can_log_in_again_witness :
  (forall password,
     sample_check_password_hash (sample_generate_password_hash password) password = true)
  /\ sample_validate_on_submit (Some new_form) = true
  /\ session_of
       (index_route sample_generate_password_hash sample_check_password_hash
          sample_validate_on_submit
          (db_of (index_route sample_generate_password_hash sample_check_password_hash
                    sample_validate_on_submit sample_database None (Some new_form)))
          None (Some new_form))
     = session_of
         (index_route sample_generate_password_hash sample_check_password_hash
            sample_validate_on_submit sample_database None (Some new_form)).
Proof.
  assert (H : forall password,
            sample_check_password_hash (sample_generate_password_hash password) password
            = true).
  { intros password. apply String.eqb_refl. }
  split; [exact H |]. split; [reflexivity |].
  apply (registered_user_can_log_in_again sample_generate_password_hash
           sample_check_password_hash sample_validate_on_submit H sample_database new_form).
  - reflexivity.
  - reflexivity.
Defined.

Lemma first_readable_resume_wins_witness :
  readable sample_magic sample_pdfminer sample_docx sample_secure_filename sample_pdf = true
  /\ scan_resume sample_magic sample_pdfminer sample_docx sample_secure_filename ∅
       [sample_broken; sample_pdf; sample_notes]
     = scan_resume sample_magic sample_pdfminer sample_docx sample_secure_filename ∅
         [sample_broken; sample_pdf].
Proof.
  assert (H : readable sample_magic sample_pdfminer sample_docx sample_secure_filename
                sample_pdf = true) by (vm_compute; reflexivity).
  split; [exact H |].
  apply (proj2 (first_readable_resume_wins sample_magic sample_pdfminer sample_docx
                  sample_secure_filename ∅ [sample_broken; sample_pdf; sample_notes])
           [sample_broken] sample_pdf [sample_notes]).
  - reflexivity.
  - exact H.
Defined.

Definition jane_profile_form : ProfileForm :=
  {| form_full_name := "Jane A. Doe"; form_skills := "python, sql";
     form_files := [sample_notes] |}.

Lemma save_profile_keeps_one_per_user_witness :
  List.NoDup (List.map profile_user (profiles sample_database))
  /\ List.NoDup
       (List.map profile_user
          (profiles
             (fst (fst (fst (save_profile sample_magic sample_pdfminer sample_docx
                               sample_secure_filename sample_database ∅ 2
                               jane_profile_form)))))).
Proof.
  assert (H : List.NoDup (List.map profile_user (profiles sample_database))).
  { repeat constructor. intros []. }
  split; [exact H |].
  apply (save_profile_keeps_one_per_user sample_magic sample_pdfminer sample_docx
           sample_secure_filename sample_database ∅ 2 jane_profile_form).
  exact H.
Defined.
